(** * The Facebook Send-API client: request utility and messaging client

    A shallow embedding of [src/client/FacebookMessagingAPIClient.ts] and of
    the [Utils] class it delegates to.  JavaScript values are a small tree
    datatype, the mutable request-option objects live in an explicit store,
    and every call of the [request] library is recorded in a log together
    with the handler the source passes to it. *)

From Stdlib Require Import NArith String Ascii Bool Lia.
From stdpp Require Import base list strings.

Set Warnings "-register-all".
Local Open Scope string_scope.
Local Open Scope list_scope.

(** ** JavaScript values *)

Module JS.

(** The built-in classes of functions whose class string is not
    [[object Function]]: [async function], [function*] and
    [async function*]. *)
Inductive function_kind : Type :=
| AsyncFunction
| GeneratorFunction
| AsyncGeneratorFunction.

(** Values the client sees: the JSON fragment, [undefined], functions
    (identified by their source text) and [Error] instances.  A number is
    given by the text JavaScript prints for it ([3128], [0.5], [1e+21],
    [NaN]); not every text is the text of a number, and what holds for all
    texts holds for those that are.  An object is its list of own data
    properties in insertion order; it inherits from [Object.prototype].
    [JFun] is an ordinary function (a function expression, an arrow
    function, a method, a class), [JFunOf] a function of one of the other
    built-in kinds. *)
Inductive jsval : Type :=
| JUndefined
| JNull
| JBool (b : bool)
| JNum (text : string)
| JStr (s : string)
| JArr (items : list jsval)
| JObj (props : list (string * jsval))
| JFun (source : string)
| JFunOf (kind : function_kind) (source : string)
| JErr (message : string).

(** What a JavaScript statement can raise. *)
Inductive exn : Type :=
| TypeError
| SyntaxError
| Error (message : string).

(** Completion of a piece of code: a value, an exception, or a call of a
    function [f] that the caller has put on one of the objects it passed in.
    What such a function does is the caller's affair; the code is not
    followed past the call. *)
Inductive completion (A : Type) : Type :=
| Normal (a : A)
| Throw (e : exn)
| Calls (f : jsval) (args : list jsval).
Arguments Normal {A} a.
Arguments Throw {A} e.
Arguments Calls {A} f args.

(** Sequencing: an exception, or a call that is not followed, ends the
    computation. *)
Definition bind {A B} (c : completion A) (k : A -> completion B) : completion B :=
  match c with
  | Normal a => k a
  | Throw e => Throw e
  | Calls f args => Calls f args
  end.

Notation "'let*' x ':=' c 'in' k" := (bind c (fun x => k))
  (at level 10, x name, c at level 100, k at level 200).

(** [if (v)]; of the numbers, [0], [-0] (which prints as [0]) and [NaN] are
    falsy. *)
Definition truthy (v : jsval) : bool :=
  match v with
  | JUndefined | JNull => false
  | JBool b => b
  | JNum text => negb (String.eqb text "0") && negb (String.eqb text "NaN")
  | JStr s => negb (String.eqb s "")
  | JArr _ | JObj _ | JFun _ | JFunOf _ _ | JErr _ => true
  end.

(** [typeof v] *)
Definition typeof (v : jsval) : string :=
  match v with
  | JUndefined => "undefined"
  | JNull => "object"
  | JBool _ => "boolean"
  | JNum _ => "number"
  | JStr _ => "string"
  | JArr _ | JObj _ | JErr _ => "object"
  | JFun _ | JFunOf _ _ => "function"
  end.

(** [typeof v === 'function']: the values that can be called. *)
Definition is_function (v : jsval) : bool := String.eqb (typeof v) "function".

(** [Array.isArray(v)] *)
Definition isArray (v : jsval) : bool :=
  match v with JArr _ => true | _ => false end.

(** [v === null] *)
Definition is_null (v : jsval) : bool :=
  match v with JNull => true | _ => false end.

(** [Object.prototype.toString.call(v)] *)
Definition class_of (v : jsval) : string :=
  match v with
  | JUndefined => "[object Undefined]"
  | JNull => "[object Null]"
  | JBool _ => "[object Boolean]"
  | JNum _ => "[object Number]"
  | JStr _ => "[object String]"
  | JArr _ => "[object Array]"
  | JObj _ => "[object Object]"
  | JFun _ => "[object Function]"
  | JFunOf AsyncFunction _ => "[object AsyncFunction]"
  | JFunOf GeneratorFunction _ => "[object GeneratorFunction]"
  | JFunOf AsyncGeneratorFunction _ => "[object AsyncGeneratorFunction]"
  | JErr _ => "[object Error]"
  end.

(** Own-property lookup in a property list. *)
Fixpoint lookup_prop (p : string) (props : list (string * jsval)) : option jsval :=
  match props with
  | [] => None
  | (k, v) :: rest => if String.eqb k p then Some v else lookup_prop p rest
  end.

(** [o[p] = v] on a property list: an existing key keeps its place. *)
Fixpoint set_prop (p : string) (v : jsval) (props : list (string * jsval))
  : list (string * jsval) :=
  match props with
  | [] => [(p, v)]
  | (k, w) :: rest =>
      if String.eqb k p then (k, v) :: rest else (k, w) :: set_prop p v rest
  end.

(** The method call [v.hasOwnProperty(p)], for a name [p] that no built-in
    value has as an own property (the source asks for [hostname] and
    [port]).  On an object the method is looked up first: an own property
    named [hasOwnProperty] hides the one of [Object.prototype], and is
    called if it is a function; calling anything else is a TypeError. *)
Definition hasOwnProperty (v : jsval) (p : string) : completion bool :=
  match v with
  | JUndefined | JNull => Throw TypeError
  | JObj props =>
      match lookup_prop "hasOwnProperty" props with
      | None =>
          Normal match lookup_prop p props with Some _ => true | None => false end
      | Some f => if is_function f then Calls f [JStr p] else Throw TypeError
      end
  | JBool _ | JNum _ | JStr _ | JArr _ | JFun _ | JFunOf _ _ | JErr _ => Normal false
  end.

(** [v.p] for a data property [p] (the source reads [error], [message],
    [hostname], [port], [messaging_type] and [tag], none of which a built-in
    prototype defines): reading from [undefined] or [null] is a TypeError, a
    missing property reads as [undefined]. *)
Definition get_prop (v : jsval) (p : string) : completion jsval :=
  match v with
  | JUndefined | JNull => Throw TypeError
  | JObj props => Normal (default JUndefined (lookup_prop p props))
  | JErr m => Normal (if String.eqb p "message" then JStr m else JUndefined)
  | JBool _ | JNum _ | JStr _ | JArr _ | JFun _ | JFunOf _ _ => Normal JUndefined
  end.

(** The character of a decimal digit. *)
Definition digit_char (d : nat) : ascii := ascii_of_nat (48 + d).

(** The digits of [n], least significant first onto [acc]; [fuel] bounds
    their number. *)
Fixpoint decimal_digits (fuel : nat) (n : N) (acc : string) : string :=
  match fuel with
  | O => acc
  | S fuel' =>
      let acc' := String (digit_char (N.to_nat (n mod 10))) acc in
      if (n <? 10)%N then acc' else decimal_digits fuel' (n / 10) acc'
  end.

(** The property name of the element at index [i] of an array: the
    decimal text of [i]. *)
Definition index_key (i : nat) : string :=
  decimal_digits (S (N.to_nat (N.log2 (N.of_nat i)))) (N.of_nat i) "".

(** [sep]-joined texts, as [Array.prototype.join] assembles them. *)
Fixpoint join_strings (sep : string) (parts : list string) : string :=
  match parts with
  | [] => ""
  | [x] => x
  | x :: rest => x ++ sep ++ join_strings sep rest
  end.

(** [String(v)], the conversion a template literal applies.  An array
    joins the texts of its elements with commas, [undefined] and [null]
    elements giving the empty text.  An object is converted by its
    [toString] method, then by [valueOf]: an own property of that name
    hides the built-in one and is called if it is a function.  The built-in
    [toString] gives [[object Object]]; the built-in [valueOf] gives the
    object back, which is no text, so that an object whose own [toString]
    cannot be called ends in a TypeError unless an own [valueOf] can. *)
Fixpoint to_string (v : jsval) : completion string :=
  match v with
  | JUndefined => Normal "undefined"
  | JNull => Normal "null"
  | JBool true => Normal "true"
  | JBool false => Normal "false"
  | JNum text => Normal text
  | JStr s => Normal s
  | JArr items =>
      let* parts :=
        (fix each (l : list jsval) : completion (list string) :=
           match l with
           | [] => Normal []
           | x :: rest =>
               let* s := match x with
                         | JUndefined | JNull => Normal ""
                         | _ => to_string x
                         end in
               let* more := each rest in
               Normal (s :: more)
           end) items in
      Normal (join_strings "," parts)
  | JObj props =>
      match lookup_prop "toString" props with
      | None => Normal "[object Object]"
      | Some f =>
          if is_function f then Calls f []
          else match lookup_prop "valueOf" props with
               | Some g => if is_function g then Calls g [] else Throw TypeError
               | None => Throw TypeError
               end
      end
  | JFun source | JFunOf _ source => Normal source
  | JErr m => Normal (if String.eqb m "" then "Error" else "Error: " ++ m)%string
  end.


(** [h.indexOf(needle) === 0]: [indexOf] is a method of strings and of
    arrays; an object has it only as an own property, and any other value
    not at all. *)
Definition indexOf_is_zero (h : jsval) (needle : string) : completion bool :=
  match h with
  | JStr s =>
      Normal (match String.index 0 needle s with
              | Some O => true
              | _ => false
              end)
  | JArr items =>
      Normal (match items with
              | JStr x :: _ => String.eqb x needle
              | _ => false
              end)
  | JObj props =>
      match lookup_prop "indexOf" props with
      | Some f => if is_function f then Calls f [JStr needle] else Throw TypeError
      | None => Throw TypeError
      end
  | _ => Throw TypeError
  end.

End JS.
Export JS.

(** ** The URL heuristic of [sendUrlOrIdBasedMessage] *)

Module Regex.

(** The regular-expression constructs the source's pattern uses.  A text is
    read as its list of characters; every class of the pattern holds ASCII
    characters only. *)
Inductive re : Type :=
| Chr (p : ascii -> bool)               (* one character of a class *)
| Seq (r1 r2 : re)
| Opt (r : re)                          (* r? *)
| Rep (p : ascii -> bool) (lo hi : nat) (* [class]{lo,hi} *)
| Star (p : ascii -> bool)              (* [class]* *)
| WordBoundary.                         (* \b *)

(** Character classes, by character code. *)
Definition in_range (lo hi : nat) (c : ascii) : bool :=
  (lo <=? nat_of_ascii c)%nat && (nat_of_ascii c <=? hi)%nat.

Definition just (x : ascii) (c : ascii) : bool := Ascii.eqb x c.
Definition lower : ascii -> bool := in_range 97 122.
Definition upper : ascii -> bool := in_range 65 90.
Definition digit : ascii -> bool := in_range 48 57.

(** [\w] *)
Definition word_char (c : ascii) : bool :=
  lower c || upper c || digit c || just "_" c.

(** [.]: any character but a line terminator. *)
Definition dot (c : ascii) : bool :=
  negb (just "010" c || just "013" c).

(** A class given by the list of its members. *)
Definition one_of (l : list ascii) (c : ascii) : bool :=
  existsb (fun x => Ascii.eqb x c) l.

(** Whether the position before or after is a word character; the ends of
    the text are not. *)
Definition is_word (c : option ascii) : bool :=
  match c with Some x => word_char x | None => false end.

(** Between [lo] and [hi] characters of class [p], then the continuation. *)
Fixpoint rep (p : ascii -> bool) (lo hi : nat) (prev : option ascii)
    (s : list ascii) (k : option ascii -> list ascii -> bool) : bool :=
  match hi with
  | O => if (lo =? 0)%nat then k prev s else false
  | S hi' =>
      if (if (lo =? 0)%nat then k prev s else false) then true
      else match s with
           | c :: s' => if p c then rep p (Nat.pred lo) hi' (Some c) s' k else false
           | [] => false
           end
  end.

(** [accepts r prev s k]: some way of matching [r] at the front of [s]
    ([prev] is the character before it) leaves a rest the continuation [k]
    accepts.  Whether a match exists does not depend on the order in which a
    backtracking matcher tries the alternatives. *)
Fixpoint accepts (r : re) (prev : option ascii) (s : list ascii)
    (k : option ascii -> list ascii -> bool) : bool :=
  match r with
  | Chr p =>
      match s with
      | c :: s' => if p c then k (Some c) s' else false
      | [] => false
      end
  | Seq r1 r2 => accepts r1 prev s (fun prev' s' => accepts r2 prev' s' k)
  | Opt r1 => if accepts r1 prev s k then true else k prev s
  | Rep p lo hi => rep p lo hi prev s k
  | Star p => rep p 0 (length s) prev s k
  | WordBoundary =>
      if xorb (is_word prev) (is_word (head s)) then k prev s else false
  end.

(** A match starting at some position of the text. *)
Fixpoint search_from (r : re) (prev : option ascii) (s : list ascii) : bool :=
  if accepts r prev s (fun _ _ => true) then true
  else match s with
       | c :: s' => search_from r (Some c) s'
       | [] => false
       end.

(** [text.match(/r/g)] is an array when a match exists and [null] when none
    does; this is its truth value. *)
Definition matches (r : re) (text : string) : bool :=
  search_from r None (list_ascii_of_string text).

(** The characters of [w] in a row (the empty pattern for no character). *)
Fixpoint lit (w : list ascii) : re :=
  match w with
  | [] => Opt (Chr (fun _ => false))
  | [c] => Chr (just c)
  | c :: w' => Seq (Chr (just c)) (lit w')
  end.

(** [[-a-zA-Z0-9@:%._\+~#=]] *)
Definition host_class (c : ascii) : bool :=
  lower c || upper c || digit c
  || one_of ["-"; "@"; ":"; "%"; "."; "_"; "+"; "~"; "#"; "="]%char c.

(** [[-a-zA-Z0-9@:%_\+.~#?&//=]] *)
Definition path_class (c : ascii) : bool :=
  lower c || upper c || digit c
  || one_of ["-"; "@"; ":"; "%"; "_"; "+"; "."; "~"; "#"; "?"; "&"; "/"; "="]%char c.

(** The pattern of the source, piece by piece (its literal carries the
    flag g):
      (http(s)?:\/\/.)?   (www\.)?   [-a-zA-Z0-9@:%._\+~#=]{2,256}   \.
      [a-z]{2,6}   \b   ( [-a-zA-Z0-9@:%_\+.~#?&//=]* ) *)
Definition url_pattern : re :=
  Seq (Opt (Seq (lit ["h"; "t"; "t"; "p"]%char)
              (Seq (Opt (Chr (just "s")))
                 (Seq (lit [":"; "/"; "/"]%char) (Chr dot)))))
    (Seq (Opt (lit ["w"; "w"; "w"; "."]%char))
       (Seq (Rep host_class 2 256)
          (Seq (Chr (just "."))
             (Seq (Rep lower 2 6)
                (Seq WordBoundary (Star path_class)))))).

End Regex.

(** ** The request utility ([Utils]) *)

Module Utils.

(** Option objects are mutable and shared by reference: they live in a
    store and are named by their position in it. *)
Abbreviation loc := nat.

(** The [qs] object of [RequestOptions]; an optional field that is absent
    or [undefined] is [None]. *)
Record QueryString : Type := {
  access_token : option string;
  fields : option string
}.

(** [interface RequestOptions]; [qs] is a reference to a [QueryString]. *)
Record RequestOptions : Type := {
  url : string;
  qs : loc;
  method : option string;
  opt_proxy : option string;
  json : option jsval
}.

(** [interface RequestData]; [proxy] is [Some] exactly when the object has
    an own property [proxy]. *)
Record RequestData : Type := {
  token : string;
  proxy : option string
}.

(** The handler a call of [request] is given. *)
Inductive handler : Type :=
| PromiseHandler                 (* the one that settles the new promise *)
| CallbackHandler (cb : jsval).  (* the one that forwards to [cb] *)

(** What [request] reads from the option object it is called with. *)
Record Wire : Type := {
  wire_url : string;
  wire_qs : QueryString;
  wire_method : option string;
  wire_proxy : option string;
  wire_json : option jsval
}.

(** One call of [request(options, handler)]. *)
Record Issued : Type := {
  issued_options : loc;
  issued_wire : Wire;
  issued_handler : handler
}.

(** Process state: the two stores and the log of calls of [request]. *)
Record state : Type := {
  options_store : list RequestOptions;
  qs_store : list QueryString;
  outbox : list Issued
}.

(** Stateful code: a state transformer that may end abruptly. *)
Definition M (A : Type) : Type := state -> completion (A * state).

(** The monad operations, and pure code that may throw run as stateful
    code. *)
Definition ret {A} (a : A) : M A := fun st => Normal (a, st).

Definition bindM {A B} (m : M A) (k : A -> M B) : M B :=
  fun st =>
    match m st with
    | Normal (a, st') => k a st'
    | Throw e => Throw e
    | Calls f args => Calls f args
    end.

Definition lift {A} (c : completion A) : M A :=
  fun st =>
    match c with
    | Normal a => Normal (a, st)
    | Throw e => Throw e
    | Calls f args => Calls f args
    end.

Notation "x <- c ;; k" := (bindM c (fun x => k))
  (at level 100, c at next level, right associativity).
Notation "c ;;; k" := (bindM c (fun _ => k))
  (at level 100, right associativity).

(** The value and the final state of a run that came to its end. *)
Definition value_of {A} (c : completion (A * state)) : option A :=
  match c with
  | Normal (a, _) => Some a
  | Throw _ | Calls _ _ => None
  end.

Definition state_of {A} (c : completion (A * state)) : option state :=
  match c with
  | Normal (_, st) => Some st
  | Throw _ | Calls _ _ => None
  end.

(** Dereferencing something that is not an object is a TypeError. *)
Definition read_options (l : loc) : M RequestOptions :=
  fun st =>
    match options_store st !! l with
    | Some o => Normal (o, st)
    | None => Throw TypeError
    end.

(** The same for a [qs] reference. *)
Definition read_qs (l : loc) : M QueryString :=
  fun st =>
    match qs_store st !! l with
    | Some q => Normal (q, st)
    | None => Throw TypeError
    end.

(** Stores; they are only reached after a successful read of the same
    location. *)
Definition write_options (l : loc) (o : RequestOptions) : M unit :=
  fun st =>
    Normal (tt, {| options_store := <[l := o]> (options_store st);
                   qs_store := qs_store st;
                   outbox := outbox st |}).

Definition write_qs (l : loc) (q : QueryString) : M unit :=
  fun st =>
    Normal (tt, {| options_store := options_store st;
                   qs_store := <[l := q]> (qs_store st);
                   outbox := outbox st |}).

(** Field updates of the two records. *)
Definition set_url (u : string) (o : RequestOptions) : RequestOptions :=
  {| url := u; qs := qs o; method := method o;
     opt_proxy := opt_proxy o; json := json o |}.

Definition set_method (m : option string) (o : RequestOptions) : RequestOptions :=
  {| url := url o; qs := qs o; method := m;
     opt_proxy := opt_proxy o; json := json o |}.

Definition set_proxy (p : option string) (o : RequestOptions) : RequestOptions :=
  {| url := url o; qs := qs o; method := method o;
     opt_proxy := p; json := json o |}.

Definition set_json (j : option jsval) (o : RequestOptions) : RequestOptions :=
  {| url := url o; qs := qs o; method := method o;
     opt_proxy := opt_proxy o; json := j |}.

Definition set_access_token (t : option string) (q : QueryString) : QueryString :=
  {| access_token := t; fields := fields q |}.

Definition set_fields (f : option string) (q : QueryString) : QueryString :=
  {| access_token := access_token q; fields := f |}.

(** [options.field = ...] *)
Definition update_options (l : loc) (f : RequestOptions -> RequestOptions) : M unit :=
  o <- read_options l ;; write_options l (f o).

(** [options.qs.field = ...] *)
Definition update_qs (l : loc) (f : QueryString -> QueryString) : M unit :=
  o <- read_options l ;;
  q <- read_qs (qs o) ;;
  write_qs (qs o) (f q).

(** [private static requestOptions]: the one shared base object. *)
Definition requestOptions : loc := 0.

(** The state the class starts in: the static initialiser of
    [requestOptions] and nothing else. *)
Definition initial : state :=
  {| options_store :=
       [ {| url := "https://graph.facebook.com/v3.1/"; qs := 0;
            method := None; opt_proxy := None; json := None |} ];
     qs_store := [ {| access_token := None; fields := None |} ];
     outbox := [] |}.

(** [Utils.setAPIVersion(version)] *)
Definition setAPIVersion (version : string) : M unit :=
  update_options requestOptions
    (set_url ("https://graph.facebook.com/v" ++ version ++ "/")).

(** What [JSON.stringify] keeps of a data value: [None] where it yields
    [undefined] (the value is left out of a record and becomes [null] in an
    array); a number that is not finite becomes [null]; an [Error] has no
    enumerable property. *)
Fixpoint to_json (v : jsval) : option jsval :=
  match v with
  | JUndefined | JFun _ | JFunOf _ _ => None
  | JNull | JBool _ | JStr _ => Some v
  | JNum text =>
      if String.eqb text "NaN" || String.eqb text "Infinity"
         || String.eqb text "-Infinity"
      then Some JNull else Some v
  | JArr items =>
      Some (JArr ((fix each (l : list jsval) : list jsval :=
                     match l with
                     | [] => []
                     | x :: rest => default JNull (to_json x) :: each rest
                     end) items))
  | JObj props =>
      Some (JObj ((fix each (l : list (string * jsval)) : list (string * jsval) :=
                     match l with
                     | [] => []
                     | (k, x) :: rest =>
                         match to_json x with
                         | Some y => (k, y) :: each rest
                         | None => each rest
                         end
                     end) props))
  | JErr _ => Some (JObj [])
  end.

(** The property [k] of a JSON record, left out when its value is. *)
Definition field (k : string) (v : option jsval) : list (string * jsval) :=
  match v with
  | Some x => [(k, x)]
  | None => []
  end.

(** [JSON.stringify(options)]: the JSON text, given as the tree it denotes.
    Properties whose value is [undefined] are left out. *)
Definition JSON_stringify (options : loc) : M jsval :=
  o <- read_options options ;;
  q <- read_qs (qs o) ;;
  ret (JObj ([("url", JStr (url o));
              ("qs", JObj (field "access_token" (JStr <$> access_token q)
                           ++ field "fields" (JStr <$> fields q)))]
             ++ field "method" (JStr <$> method o)
             ++ field "proxy" (JStr <$> opt_proxy o)
             ++ field "json" (json o ≫= to_json))).

(** The string-valued property [k] of a parsed record, if it has one. *)
Definition string_field (k : string) (props : list (string * jsval)) : option string :=
  match lookup_prop k props with
  | Some (JStr s) => Some s
  | _ => None
  end.

(** [<RequestOptions>JSON.parse(text)]: builds a new object for every
    record of the text, here the option object and its [qs].  A text that
    is no record with a [url] and a [qs] is not one [JSON_stringify]
    produces, and has no reading as [RequestOptions]. *)
Definition JSON_parse_options (text : jsval) : M loc :=
  fun st =>
    match text with
    | JObj props =>
        match lookup_prop "url" props, lookup_prop "qs" props with
        | Some (JStr u), Some (JObj qprops) =>
            let q := {| access_token := string_field "access_token" qprops;
                        fields := string_field "fields" qprops |} in
            let o := {| url := u;
                        qs := length (qs_store st);
                        method := string_field "method" props;
                        opt_proxy := string_field "proxy" props;
                        json := lookup_prop "json" props |} in
            Normal (length (options_store st),
                    {| options_store := options_store st ++ [o];
                       qs_store := qs_store st ++ [q];
                       outbox := outbox st |})
        | _, _ => Throw TypeError
        end
    | _ => Throw TypeError
    end.

(** [Utils.getRequestOptions()] *)
Definition getRequestOptions : M loc :=
  text <- JSON_stringify requestOptions ;;
  JSON_parse_options text.

(** [request(options, handler)]: the call is logged with what the option
    object holds at that moment; the handler runs when the transport
    completes. *)
Definition request (options : loc) (h : handler) : M nat :=
  o <- read_options options ;;
  q <- read_qs (qs o) ;;
  fun st =>
    Normal (length (outbox st),
            {| options_store := options_store st;
               qs_store := qs_store st;
               outbox := outbox st ++
                 [ {| issued_options := options;
                      issued_wire := {| wire_url := url o; wire_qs := q;
                                        wire_method := method o;
                                        wire_proxy := opt_proxy o;
                                        wire_json := json o |};
                      issued_handler := h |} ] |}).

(** What [sendMessage] returns. *)
Inductive returned : Type :=
| NewPromise (request_no : nat)   (* [new Promise(...)] around request number [request_no] *)
| PromiseResolve (v : jsval).     (* [Promise.resolve(v)] *)

(** [Utils.sendMessage(options, requestData, cb)] *)
Definition sendMessage (options : loc) (requestData : RequestData) (cb : jsval)
  : M returned :=
  update_qs options (set_access_token (Some (token requestData))) ;;;
  match proxy requestData with
  | Some p => update_options options (set_proxy (Some p))
  | None => ret tt
  end ;;;
  if negb (String.eqb (typeof cb) "function") then
    n <- request options PromiseHandler ;;
    ret (NewPromise n)
  else
    request options (CallbackHandler cb) ;;;
    ret (PromiseResolve JUndefined).

(** How a promise ends up. *)
Inductive promise_state : Type :=
| Pending
| Fulfilled (v : jsval)
| Rejected (v : jsval).

Section Handlers.

(** [JSON.parse] of the runtime, applied to a response body: the parsed
    value, or a SyntaxError. *)
Variable JSON_parse : jsval -> completion jsval.

(** The handler of the promise branch, [(err, _res, body) => ...]: what it
    does to the promise, unless it throws. *)
Definition promise_handler (err body : jsval) : completion promise_state :=
  if truthy err then Normal (Rejected err)
  else
    if negb (String.eqb (typeof body) "object" && negb (isArray body)
             && negb (is_null body)) then
      let* bodyObject := JSON_parse body in
      let* error := get_prop bodyObject "error" in
      if truthy error then
        let* message := get_prop error "message" in
        Normal (Rejected message)
      else Normal (Fulfilled bodyObject)
    else Normal (Fulfilled body).

(** The promise [sendMessage] returned, once the transport has completed
    with [(err, body)]: an exception escaping the handler leaves the promise
    pending. *)
Definition settled (r : returned) (err body : jsval) : promise_state :=
  match r with
  | PromiseResolve v => Fulfilled v
  | NewPromise _ =>
      match promise_handler err body with
      | Normal s => s
      | Throw _ | Calls _ _ => Pending
      end
  end.

End Handlers.

(** A call [cb(args)]. *)
Inductive invocation : Type :=
| Invoke (f : jsval) (args : list jsval).

(** The handler of the callback branch:
    [if (err) return cb(err); if (body.error) return cb(body.error); cb(null, body)]. *)
Definition callback_handler (cb : jsval) (err body : jsval) : completion invocation :=
  if truthy err then Normal (Invoke cb [err])
  else
    let* error := get_prop body "error" in
    if truthy error then Normal (Invoke cb [error])
    else Normal (Invoke cb [JNull; body]).

(** The message of the error [getProxyData] throws. *)
Definition invalid_proxy : string :=
  "Invalid Proxy object given, expected hostname and port".

(** The template literal [`${proxyData.hostname}:${proxyData.port}`]: each
    property is read and converted in turn. *)
Definition hostname_port (proxyData : jsval) : completion string :=
  let* hostname := get_prop proxyData "hostname" in
  let* h := to_string hostname in
  let* port := get_prop proxyData "port" in
  let* p := to_string port in
  Normal (h ++ ":" ++ p)%string.

(** [Utils.getProxyData(requestData, proxyData)]; the object it assigns to
    is the one it returns.  The operands of [&&] are evaluated from left to
    right, as far as they hold. *)
Definition getProxyData (requestData : RequestData) (proxyData : jsval)
  : completion RequestData :=
  if truthy proxyData then
    let* valid :=
      if String.eqb (class_of proxyData) "[object Object]" then
        let* hostname := hasOwnProperty proxyData "hostname" in
        if hostname then hasOwnProperty proxyData "port" else Normal false
      else Normal false in
    if valid then
      let* hostname := get_prop proxyData "hostname" in
      let* starts := indexOf_is_zero hostname "http" in
      if starts then
        let* address := hostname_port proxyData in
        Normal {| token := token requestData; proxy := Some address |}
      else
        let* address := hostname_port proxyData in
        Normal {| token := token requestData;
                  proxy := Some ("http://" ++ address)%string |}
    else Throw (Error invalid_proxy)
  else Normal requestData.

End Utils.

(** ** The messaging client ([FacebookMessagingAPIClient]) *)

Module Client.
Import Utils.

(** [enum ATTACHMENT_TYPE] *)
Inductive ATTACHMENT_TYPE : Type := IMAGE | AUDIO | VIDEO | FILE | TEMPLATE.

(** Modelled from the spec: the members of [ATTACHMENT_TYPE] are declared in
    [../enums], which is not among the sources; the spec gives the type tags
    as image, audio, video, file and template. *)
Definition type_tag (t : ATTACHMENT_TYPE) : jsval :=
  JStr match t with
       | IMAGE => "image"
       | AUDIO => "audio"
       | VIDEO => "video"
       | FILE => "file"
       | TEMPLATE => "template"
       end.

(** [interface MessageTag] *)
Record MessageTag : Type := {
  messaging_type : string;
  tag : string
}.

(** The three [private static readonly] sender actions. *)
Definition markSeenPayload : string := "mark_seen".
Definition typingOn : string := "typing_on".
Definition typingOff : string := "typing_off".

(** An instance: its one field. *)
Record FacebookMessagingAPIClient : Type := {
  requestData : RequestData
}.

(** [{ k1: v1, ..., kn: vn }], properties set from left to right. *)
Definition object (l : list (string * jsval)) : jsval :=
  JObj (fold_left (fun acc kv => set_prop kv.1 kv.2 acc) l []).

(** The elements of an array as properties named by their index. *)
Fixpoint indexed (i : nat) (l : list jsval) : list (string * jsval) :=
  match l with
  | [] => []
  | x :: rest => (index_key i, x) :: indexed (S i) rest
  end.

(** [...v] inside an object literal: the own enumerable properties of [v];
    [undefined] and [null] contribute none. *)
Definition spread (v : option jsval) : list (string * jsval) :=
  match v with
  | Some (JObj props) => props
  | Some (JArr items) => indexed 0 items
  | Some (JStr s) =>
      indexed 0 (map (fun c => JStr (String c "")) (list_ascii_of_string s))
  | _ => []
  end.

(** [new FacebookMessagingAPIClient(token, proxyData, version)];
    [setAPIVersion] puts the version into a template literal, which is where
    a version that is not a string is converted. *)
Definition constructor (token : string) (proxyData version : jsval)
  : M FacebookMessagingAPIClient :=
  requestData <- lift (getProxyData {| Utils.token := token; proxy := None |} proxyData) ;;
  (if truthy version then
     v <- lift (to_string version) ;; setAPIVersion v
   else ret tt) ;;;
  ret {| requestData := requestData |}.

Section Methods.

Variable this : FacebookMessagingAPIClient.

(** [private generateBasicRequestPayload(id)] *)
Definition generateBasicRequestPayload (id : string) : M loc :=
  options <- getRequestOptions ;;
  update_options options (fun o => set_url (url o ++ "me/messages") o) ;;;
  update_options options (set_method (Some "POST")) ;;;
  update_options options
    (set_json (Some (object [("recipient", object [("id", JStr id)])]))) ;;;
  ret options.

(** [private sendAction(id, payload, cb)] *)
Definition sendAction (id : string) (payload : string) (cb : jsval) : M returned :=
  options <- generateBasicRequestPayload id ;;
  update_options options
    (fun o => set_json (Some (JObj (set_prop "sender_action" (JStr payload)
                                      (spread (json o))))) o) ;;;
  sendMessage options (requestData this) cb.

(** [private toggleAction(id, toggleValue, cb)] *)
Definition toggleAction (id : string) (toggleValue : jsval) (cb : jsval) : M returned :=
  if truthy toggleValue then sendAction id typingOn cb
  else sendAction id typingOff cb.

(** [private sendDisplayMessage(id, payload, tag, cb)]; [tag] is [None] for
    [undefined] and an object of [interface MessageTag] otherwise. *)
Definition sendDisplayMessage (id : string) (payload : jsval)
    (tag : option MessageTag) (cb : jsval) : M returned :=
  options <- generateBasicRequestPayload id ;;
  update_options options
    (fun o => set_json (Some (JObj (set_prop "message" payload (spread (json o))))) o) ;;;
  match tag with
  | Some t =>
      update_options options
        (fun o => set_json
                    (Some (JObj (set_prop "tag" (JStr (Client.tag t))
                                   (set_prop "messaging_type" (JStr (messaging_type t))
                                      (spread (json o)))))) o)
  | None => ret tt
  end ;;;
  sendMessage options (requestData this) cb.

(** [private sendAttachmentMessage(id, payload, tag, cb)] *)
Definition sendAttachmentMessage (id : string) (payload : jsval)
    (tag : option MessageTag) (cb : jsval) : M returned :=
  sendDisplayMessage id (object [("attachment", payload)]) tag cb.

(** [private sendUrlOrIdBasedMessage(id, type, urlOrId, tag, cb)] *)
Definition sendUrlOrIdBasedMessage (id : string) (type : ATTACHMENT_TYPE)
    (urlOrId : string) (tag : option MessageTag) (cb : jsval) : M returned :=
  let payload :=
    if Regex.matches Regex.url_pattern urlOrId then
      object [("type", type_tag type);
              ("payload", object [("is_reusable", JBool true); ("url", JStr urlOrId)])]
    else
      object [("type", type_tag type);
              ("payload", object [("attachment_id", JStr urlOrId)])] in
  sendAttachmentMessage id payload tag cb.

(** [markSeen(id, cb)] *)
Definition markSeen (id : string) (cb : jsval) : M returned :=
  sendAction id markSeenPayload cb.

(** [toggleTyping(id, toggle, cb)], called with [id] and the further
    arguments [rest]: [arguments.length] is one more than their number, and a
    parameter no argument was passed for is [undefined]. *)
Definition toggleTyping (id : string) (rest : list jsval) : M returned :=
  let toggle := nth 0 rest JUndefined in
  let cb := nth 1 rest JUndefined in
  if (S (length rest) =? 3)%nat then toggleAction id toggle cb
  else
    if String.eqb (class_of toggle) "[object Function]" then
      sendAction id typingOff toggle
    else toggleAction id toggle JUndefined.

(** [sendTextMessage(id, text, tag, cb)] *)
Definition sendTextMessage (id text : string) (tag : option MessageTag) (cb : jsval)
  : M returned :=
  sendDisplayMessage id (object [("text", JStr text)]) tag cb.

(** [sendImageMessage(id, imageUrlOrId, tag, cb)] *)
Definition sendImageMessage (id imageUrlOrId : string) (tag : option MessageTag)
    (cb : jsval) : M returned :=
  sendUrlOrIdBasedMessage id IMAGE imageUrlOrId tag cb.

(** [sendAudioMessage(id, audioUrlOrId, tag, cb)] *)
Definition sendAudioMessage (id audioUrlOrId : string) (tag : option MessageTag)
    (cb : jsval) : M returned :=
  sendUrlOrIdBasedMessage id AUDIO audioUrlOrId tag cb.

(** [sendVideoMessage(id, videoUrlOrId, tag, cb)] *)
Definition sendVideoMessage (id videoUrlOrId : string) (tag : option MessageTag)
    (cb : jsval) : M returned :=
  sendUrlOrIdBasedMessage id VIDEO videoUrlOrId tag cb.

(** [sendFileMessage(id, fileUrlOrId, tag, cb)] *)
Definition sendFileMessage (id fileUrlOrId : string) (tag : option MessageTag)
    (cb : jsval) : M returned :=
  sendUrlOrIdBasedMessage id FILE fileUrlOrId tag cb.

(** [sendButtonsMessage(id, text, buttons, tag, cb)] *)
Definition sendButtonsMessage (id text : string) (buttons : jsval)
    (tag : option MessageTag) (cb : jsval) : M returned :=
  let payload :=
    object [("type", type_tag TEMPLATE);
            ("payload", object [("text", JStr text); ("buttons", buttons);
                                ("template_type", JStr "button")])] in
  sendAttachmentMessage id payload tag cb.

(** [sendTemplateMessage(id, templatePayload, tag, cb)] *)
Definition sendTemplateMessage (id : string) (templatePayload : jsval)
    (tag : option MessageTag) (cb : jsval) : M returned :=
  let payload := object [("type", type_tag TEMPLATE); ("payload", templatePayload)] in
  sendAttachmentMessage id payload tag cb.

(** [sendQuickReplyMessage(id, textOrAttachment, quickReplies, tag, cb)] *)
Definition sendQuickReplyMessage (id : string) (textOrAttachment quickReplies : jsval)
    (tag : option MessageTag) (cb : jsval) : M returned :=
  let payload :=
    if String.eqb (typeof textOrAttachment) "string" then
      object [("text", textOrAttachment); ("quick_replies", quickReplies)]
    else
      object [("attachment", textOrAttachment); ("quick_replies", quickReplies)] in
  sendDisplayMessage id payload tag cb.

(** [getUserProfile(id, fieldsArray, cb)].  The signature declares
    [fieldsArray: string[]] and the body tests [Array.isArray(fieldsArray)]:
    the argument is [Some names] for an array of strings and [None] for
    anything that is not an array ([undefined] when it is left out). *)
Definition getUserProfile (id : string) (fieldsArray : option (list string))
    (cb : jsval) : M returned :=
  options <- getRequestOptions ;;
  update_options options (fun o => set_url (url o ++ id) o) ;;;
  let fields :=
    match fieldsArray with
    | Some names => join_strings "," names
    | None => "first_name"
    end in
  update_qs options (set_fields (Some fields)) ;;;
  update_options options (set_method (Some "GET")) ;;;
  sendMessage options (requestData this) cb.

End Methods.

(** The public methods, each with the parameters of its signature. *)
Inductive call : Type :=
| MarkSeen (id : string) (cb : jsval)
| ToggleTyping (id : string) (rest : list jsval)
| SendTextMessage (id text : string) (tag : option MessageTag) (cb : jsval)
| SendImageMessage (id imageUrlOrId : string) (tag : option MessageTag) (cb : jsval)
| SendAudioMessage (id audioUrlOrId : string) (tag : option MessageTag) (cb : jsval)
| SendVideoMessage (id videoUrlOrId : string) (tag : option MessageTag) (cb : jsval)
| SendFileMessage (id fileUrlOrId : string) (tag : option MessageTag) (cb : jsval)
| SendButtonsMessage (id text : string) (buttons : jsval) (tag : option MessageTag)
    (cb : jsval)
| SendTemplateMessage (id : string) (templatePayload : jsval) (tag : option MessageTag)
    (cb : jsval)
| SendQuickReplyMessage (id : string) (textOrAttachment quickReplies : jsval)
    (tag : option MessageTag) (cb : jsval)
| GetUserProfile (id : string) (fieldsArray : option (list string)) (cb : jsval).

(** A call of a public method on the instance [this]. *)
Definition perform (this : FacebookMessagingAPIClient) (c : call) : M returned :=
  match c with
  | MarkSeen id cb => markSeen this id cb
  | ToggleTyping id rest => toggleTyping this id rest
  | SendTextMessage id text tag cb => sendTextMessage this id text tag cb
  | SendImageMessage id s tag cb => sendImageMessage this id s tag cb
  | SendAudioMessage id s tag cb => sendAudioMessage this id s tag cb
  | SendVideoMessage id s tag cb => sendVideoMessage this id s tag cb
  | SendFileMessage id s tag cb => sendFileMessage this id s tag cb
  | SendButtonsMessage id text buttons tag cb =>
      sendButtonsMessage this id text buttons tag cb
  | SendTemplateMessage id p tag cb => sendTemplateMessage this id p tag cb
  | SendQuickReplyMessage id t q tag cb => sendQuickReplyMessage this id t q tag cb
  | GetUserProfile id f cb => getUserProfile this id f cb
  end.

End Client.

(** * Vocabulary of the statements *)

Import Utils Client.

(** The value of [v.p], [undefined] where reading it throws. *)
Definition read (v : jsval) (p : string) : jsval :=
  match get_prop v p with
  | Normal x => x
  | Throw _ | Calls _ _ => JUndefined
  end.

(** [v === undefined || v === null] *)
Definition nullish (v : jsval) : bool :=
  match v with JUndefined | JNull => true | _ => false end.

(** The own data property [p] of an object, and whether there is one. *)
Definition own_prop (v : jsval) (p : string) : option jsval :=
  match v with
  | JObj props => lookup_prop p props
  | _ => None
  end.

Definition has_own (v : jsval) (p : string) : bool :=
  match own_prop v p with Some _ => true | None => false end.

(** A plain object with own [hostname] and [port]: what the inner [if] of
    [getProxyData] is after. *)
Definition carries_both (proxyData : jsval) : bool :=
  has_own proxyData "hostname" && has_own proxyData "port".


(** The platform's report of an invalid access token, as the transport
    hands it over once it has decoded the JSON response. *)
Definition oauth_error : jsval :=
  JObj [("message", JStr "Invalid OAuth access token.");
        ("type", JStr "OAuthException");
        ("code", JNum "190")].

Definition oauth_error_body : jsval := JObj [("error", oauth_error)].

(** A client without proxy. *)
Definition sample_client : FacebookMessagingAPIClient :=
  {| requestData := {| token := "PAGE_TOKEN"; proxy := None |} |}.

(** An option object together with the [qs] object it refers to. *)
Definition wire_of (o : RequestOptions) (q : QueryString) : Wire :=
  {| wire_url := url o; wire_qs := q; wire_method := method o;
     wire_proxy := opt_proxy o; wire_json := json o |}.

(** Everything reachable from the option object at [l]. *)
Definition view (st : state) (l : loc) : option Wire :=
  o ← options_store st !! l;
  q ← qs_store st !! qs o;
  Some (wire_of o q).

(** What [sendMessage] makes of [typeof cb === 'function']. *)
Definition handler_for (cb : jsval) : handler :=
  if is_function cb then CallbackHandler cb else PromiseHandler.

Definition returned_for (cb : jsval) (n : nat) : returned :=
  if is_function cb then PromiseResolve JUndefined else NewPromise n.

(** The object [JSON.parse(JSON.stringify(b))] builds, its [qs] at [q]. *)
Definition json_copy (b : RequestOptions) (q : loc) : RequestOptions :=
  {| url := url b; qs := q; method := method b; opt_proxy := opt_proxy b;
     json := json b ≫= to_json |}.

(** The state with one more option object and one more [qs] object. *)
Definition alloc (o : RequestOptions) (q : QueryString) (st : state) : state :=
  {| options_store := options_store st ++ [o];
     qs_store := qs_store st ++ [q];
     outbox := outbox st |}.

(** The state with one more logged call of [request]. *)
Definition log (i : Issued) (st : state) : state :=
  {| options_store := options_store st; qs_store := qs_store st;
     outbox := outbox st ++ [i] |}.

(** [if (requestData.hasOwnProperty('proxy')) options.proxy = requestData.proxy] *)
Definition with_proxy (rd : RequestData) (o : RequestOptions) : RequestOptions :=
  match proxy rd with
  | Some p => set_proxy (Some p) o
  | None => o
  end.

(** The option object a method has built when it calls [request], and the
    state it leaves: one new option object with its [qs], one more logged
    call. *)
Definition sent (st : state) (o : RequestOptions) (q : QueryString) (cb : jsval) : state :=
  {| options_store := options_store st ++ [o];
     qs_store := qs_store st ++ [q];
     outbox := outbox st ++
       [ {| issued_options := length (options_store st);
            issued_wire := wire_of o q;
            issued_handler := handler_for cb |} ] |}.

(** The payload fields of a messaging tag. *)
Definition tag_fields (t : option MessageTag) : list (string * jsval) :=
  match t with
  | Some t => [("messaging_type", JStr (messaging_type t)); ("tag", JStr (tag t))]
  | None => []
  end.

(** The [fields] query parameter of [getUserProfile]. *)
Definition profile_fields (fieldsArray : option (list string)) : string :=
  match fieldsArray with
  | Some names => join_strings "," names
  | None => "first_name"
  end.

(** What the methods are documented to put on the wire. *)
Definition recipient (id : string) : string * jsval :=
  ("recipient", JObj [("id", JStr id)]).

Definition action_body (id sender_action : string) : jsval :=
  JObj [recipient id; ("sender_action", JStr sender_action)].

Definition display_body (id : string) (message : jsval) (t : option MessageTag) : jsval :=
  JObj ([recipient id; ("message", message)] ++ tag_fields t).

Definition attachment (type : ATTACHMENT_TYPE) (payload : jsval) : jsval :=
  JObj [("attachment", JObj [("type", type_tag type); ("payload", payload)])].

Definition media_payload (s : string) : jsval :=
  if Regex.matches Regex.url_pattern s then
    JObj [("is_reusable", JBool true); ("url", JStr s)]
  else JObj [("attachment_id", JStr s)].

(** [Object.prototype.toString.call(v) === '[object Function]']: the test
    [toggleTyping] applies to its second argument. *)
Definition is_plain_function (v : jsval) : bool :=
  String.eqb (class_of v) "[object Function]".

(** The sender action [toggleTyping] chooses for its further arguments. *)
Definition toggle_of (rest : list jsval) : string :=
  let toggle := nth 0 rest JUndefined in
  if (S (length rest) =? 3)%nat then if truthy toggle then typingOn else typingOff
  else if is_plain_function toggle then typingOff
       else if truthy toggle then typingOn else typingOff.

(** The value a call passes on to [sendMessage] as callback. *)
Definition callback_of (c : call) : jsval :=
  match c with
  | MarkSeen _ cb => cb
  | ToggleTyping _ rest =>
      if (S (length rest) =? 3)%nat then nth 1 rest JUndefined
      else if is_plain_function (nth 0 rest JUndefined) then nth 0 rest JUndefined
           else JUndefined
  | SendTextMessage _ _ _ cb | SendImageMessage _ _ _ cb
  | SendAudioMessage _ _ _ cb | SendVideoMessage _ _ _ cb
  | SendFileMessage _ _ _ cb | SendButtonsMessage _ _ _ _ cb
  | SendTemplateMessage _ _ _ cb | SendQuickReplyMessage _ _ _ _ cb
  | GetUserProfile _ _ cb => cb
  end.

(** The messaging tag of a call: the methods that send a sender action or
    fetch a profile have no such parameter. *)
Definition tag_of (c : call) : option MessageTag :=
  match c with
  | MarkSeen _ _ | ToggleTyping _ _ | GetUserProfile _ _ _ => None
  | SendTextMessage _ _ t _ | SendImageMessage _ _ t _
  | SendAudioMessage _ _ t _ | SendVideoMessage _ _ t _
  | SendFileMessage _ _ t _ | SendButtonsMessage _ _ _ t _
  | SendTemplateMessage _ _ t _ | SendQuickReplyMessage _ _ _ t _ => t
  end.

(** The JSON body a call sends ([getUserProfile] sets none and keeps what
    the copy of the base holds). *)
Definition body_of (base_json : option jsval) (c : call) : option jsval :=
  match c with
  | MarkSeen id _ => Some (action_body id markSeenPayload)
  | ToggleTyping id rest => Some (action_body id (toggle_of rest))
  | SendTextMessage id text t _ =>
      Some (display_body id (JObj [("text", JStr text)]) t)
  | SendImageMessage id s t _ => Some (display_body id (attachment IMAGE (media_payload s)) t)
  | SendAudioMessage id s t _ => Some (display_body id (attachment AUDIO (media_payload s)) t)
  | SendVideoMessage id s t _ => Some (display_body id (attachment VIDEO (media_payload s)) t)
  | SendFileMessage id s t _ => Some (display_body id (attachment FILE (media_payload s)) t)
  | SendButtonsMessage id text buttons t _ =>
      Some (display_body id
              (attachment TEMPLATE
                 (JObj [("text", JStr text); ("buttons", buttons);
                        ("template_type", JStr "button")])) t)
  | SendTemplateMessage id p t _ => Some (display_body id (attachment TEMPLATE p) t)
  | SendQuickReplyMessage id x replies t _ =>
      Some (display_body id
              (if String.eqb (typeof x) "string"
               then JObj [("text", x); ("quick_replies", replies)]
               else JObj [("attachment", x); ("quick_replies", replies)]) t)
  | GetUserProfile _ _ _ => base_json ≫= to_json
  end.

(** The option object, and its [qs], with which a call reaches [request];
    [b] and [qb] are the base object and its [qs], [q] the place of the new
    [qs]. *)
Definition built (this : FacebookMessagingAPIClient) (b : RequestOptions)
    (q : loc) (c : call) : RequestOptions :=
  with_proxy (requestData this)
    match c with
    | GetUserProfile id _ _ =>
        {| url := url b ++ id; qs := q; method := Some "GET";
           opt_proxy := opt_proxy b; json := body_of (json b) c |}
    | _ =>
        {| url := url b ++ "me/messages"; qs := q; method := Some "POST";
           opt_proxy := opt_proxy b; json := body_of (json b) c |}
    end.

Definition built_qs (this : FacebookMessagingAPIClient) (qb : QueryString)
    (c : call) : QueryString :=
  set_access_token (Some (token (requestData this)))
    match c with
    | GetUserProfile _ fieldsArray _ => set_fields (Some (profile_fields fieldsArray)) qb
    | _ => qb
    end.

(** Invariant of the stores: the base object exists, no [qs] reference
    dangles, and the [qs] object of the base is referenced by the base
    alone. *)
Record wf (st : state) : Prop := {
  wf_base : is_Some (options_store st !! requestOptions);
  wf_qs : forall l o, options_store st !! l = Some o -> qs o < length (qs_store st);
  wf_private : forall l o b,
      options_store st !! requestOptions = Some b ->
      options_store st !! l = Some o ->
      l <> requestOptions -> qs o <> qs b
}.

(** Writing to one object and to its [qs]. *)
Definition written (l : loc) (o : RequestOptions) (ql : loc) (q : QueryString)
    (st : state) : state :=
  {| options_store := <[l := o]> (options_store st);
     qs_store := <[ql := q]> (qs_store st);
     outbox := outbox st |}.

(** Assignments a holder of an option object can make to it and to its
    [qs]. *)
Inductive mutation : Type :=
| SetUrl (u : string)
| SetMethod (m : option string)
| SetProxy (p : option string)
| SetJson (j : option jsval)
| SetAccessToken (t : option string)
| SetFields (f : option string).

(** One assignment through the option object at [l], and a run of them. *)
Definition mutate (l : loc) (m : mutation) : M unit :=
  match m with
  | SetUrl u => update_options l (set_url u)
  | SetMethod x => update_options l (set_method x)
  | SetProxy p => update_options l (set_proxy p)
  | SetJson j => update_options l (set_json j)
  | SetAccessToken t => update_qs l (set_access_token t)
  | SetFields f => update_qs l (set_fields f)
  end.

Fixpoint mutate_all (l : loc) (ms : list mutation) : M unit :=
  match ms with
  | [] => ret tt
  | m :: rest => mutate l m ;;; mutate_all l rest
  end.

(** A view after a JSON round trip of its body. *)
Definition json_view (w : Wire) : Wire :=
  {| wire_url := wire_url w; wire_qs := wire_qs w; wire_method := wire_method w;
     wire_proxy := wire_proxy w; wire_json := wire_json w ≫= to_json |}.

(** What a program using the library can do to the shared state.  The
    static field [requestOptions] is private: the option objects a caller
    holds are results of [getRequestOptions] and objects it has written out
    itself ([Literal]: an object literal with the fields of [o], its [qs]
    a new object with the fields of [q]). *)
Inductive operation : Type :=
| New (token : string) (proxyData version : jsval)
| Method (this : FacebookMessagingAPIClient) (c : call)
| SendMessage (options : loc) (requestData : RequestData) (cb : jsval)
| GetRequestOptions
| SetAPIVersion (version : string)
| Literal (o : RequestOptions) (q : QueryString)
| Assign (options : loc) (m : mutation).

(** The code an operation runs. *)
Definition exec (op : operation) : M unit :=
  match op with
  | New token proxyData version => constructor token proxyData version ;;; ret tt
  | Method this c => perform this c ;;; ret tt
  | SendMessage options requestData cb => sendMessage options requestData cb ;;; ret tt
  | GetRequestOptions => getRequestOptions ;;; ret tt
  | SetAPIVersion version => setAPIVersion version
  | Literal o q =>
      fun st =>
        Normal (tt, alloc {| url := url o; qs := length (qs_store st);
                             method := method o; opt_proxy := opt_proxy o;
                             json := json o |} q st)
  | Assign options m => mutate options m
  end.

(** An operation that throws does so before it has written anything; so
    does a constructor that calls a function found on its proxy descriptor,
    and the operation is taken to end there. *)
Definition step (st : state) (op : operation) : state :=
  match exec op st with
  | Normal (_, st') => st'
  | Throw _ | Calls _ _ => st
  end.

(** A program: operations in sequence. *)
Definition run (ops : list operation) (st : state) : state :=
  fold_left step ops st.

(** The operations that name an option object do not name the base. *)
Definition keeps_private (op : operation) : Prop :=
  match op with
  | SendMessage l _ _ | Assign l _ => l <> requestOptions
  | _ => True
  end.

(** The version an operation passes to [setAPIVersion], if it gets there. *)
Definition version_set (op : operation) : option string :=
  match op with
  | SetAPIVersion version => Some version
  | New token proxyData version =>
      match getProxyData {| token := token; proxy := None |} proxyData with
      | Normal _ =>
          if truthy version then
            match to_string version with
            | Normal v => Some v
            | Throw _ | Calls _ _ => None
            end
          else None
      | Throw _ | Calls _ _ => None
      end
  | _ => None
  end.

(** The base [url] after an operation, given the one before. *)
Definition versioned (u : string) (op : operation) : string :=
  match version_set op with
  | Some v => "https://graph.facebook.com/v" ++ v ++ "/"
  | None => u
  end.

(** A view with another [url]. *)
Definition with_url (u : string) (w : Wire) : Wire :=
  {| wire_url := u; wire_qs := wire_qs w; wire_method := wire_method w;
     wire_proxy := wire_proxy w; wire_json := wire_json w |}.

(** The call of [request] a run made last, its JSON body and its handler. *)
Definition issued_by {A} (run : completion (A * state)) : option Issued :=
  st' ← state_of run; last (outbox st').

Definition sent_json {A} (run : completion (A * state)) : option jsval :=
  i ← issued_by run; wire_json (issued_wire i).

Definition sent_handler {A} (run : completion (A * state)) : option handler :=
  issued_handler <$> issued_by run.

(** The state after one call of [getRequestOptions]: location 1 holds the
    copy. *)
Definition sample_state : state := step initial GetRequestOptions.

(** A messaging tag and a program to run the statements on. *)
Definition sample_tag : MessageTag :=
  {| messaging_type := "MESSAGE_TAG"; tag := "ACCOUNT_UPDATE" |}.

Definition sample_program : list operation :=
  [ New "PAGE_TOKEN" (JObj [("hostname", JStr "proxy.local"); ("port", JNum "3128")])
      (JStr "2.11");
    Method sample_client (SendTextMessage "42" "hi" (Some sample_tag) JUndefined);
    GetRequestOptions;
    SendMessage 2 {| token := "OTHER_TOKEN"; proxy := Some "http://proxy.local:3128" |}
      (JFun "cb");
    Assign 2 (SetUrl "https://example.com/");
    Literal {| url := "https://graph.facebook.com/v3.1/me/messages"; qs := 0;
               method := Some "POST"; opt_proxy := None;
               json := Some (JObj [("recipient", JObj [("id", JStr "7")])]) |}
      {| access_token := None; fields := None |};
    SendMessage 3 {| token := "THIRD_TOKEN"; proxy := None |} JUndefined;
    Method sample_client (GetUserProfile "42" (Some ["first_name"; "last_name"])
                            JUndefined) ].

(** The character before the rest, after [s1] has been read. *)
Definition last_or (prev : option ascii) (s1 : list ascii) : option ascii :=
  match last s1 with
  | Some c => Some c
  | None => prev
  end.

(** The core of the URL pattern: what is left when both optional groups
    are skipped. *)
Definition url_core : Regex.re :=
  Regex.Seq (Regex.Rep Regex.host_class 2 256)
    (Regex.Seq (Regex.Chr (Regex.just "."))
       (Regex.Seq (Regex.Rep Regex.lower 2 6)
          (Regex.Seq Regex.WordBoundary (Regex.Star Regex.path_class)))).

(** The shape of a text the core accepts at its front. *)
Definition core_shape (host tld post : list ascii) : Prop :=
  forallb Regex.host_class host = true /\ 2 <= length host <= 256
  /\ forallb Regex.lower tld = true /\ 2 <= length tld <= 6
  /\ Regex.is_word (head post) = false.

(** What the call of [request] a run made last was given to send. *)
Definition sent_wire {A} (run : completion (A * state)) : option Wire :=
  issued_wire <$> issued_by run.

(** The recipient a call of a sending method names. *)
Definition id_of (c : call) : string :=
  match c with
  | MarkSeen id _ | ToggleTyping id _ | SendTextMessage id _ _ _
  | SendImageMessage id _ _ _ | SendAudioMessage id _ _ _
  | SendVideoMessage id _ _ _ | SendFileMessage id _ _ _
  | SendButtonsMessage id _ _ _ _ | SendTemplateMessage id _ _ _
  | SendQuickReplyMessage id _ _ _ _ | GetUserProfile id _ _ => id
  end.

(** Whether a call fetches a profile. *)
Definition is_profile (c : call) : bool :=
  match c with GetUserProfile _ _ _ => true | _ => false end.

(** The URL of the API at a version. *)
Definition versioned_url (version : string) : string :=
  "https://graph.facebook.com/v" ++ version ++ "/".

(** The address a call is sent to, after the base URL. *)
Definition endpoint (c : call) : string :=
  match c with
  | GetUserProfile id _ _ => id
  | _ => "me/messages"
  end.

(** Whether a response body already counts as an object for the promise
    handler. *)
Definition is_record (body : jsval) : bool :=
  match body with JObj _ | JErr _ => true | _ => false end.

(** The shape of a text the URL pattern matches: somewhere in it, two
    characters of the host class, a dot, and two to six lower-case letters
    after which no word character comes. *)
Definition url_shape (text : string) : Prop :=
  exists pre a b tld post,
    list_ascii_of_string text = pre ++ a :: b :: "."%char :: tld ++ post
    /\ Regex.host_class a = true /\ Regex.host_class b = true
    /\ forallb Regex.lower tld = true /\ 2 <= length tld <= 6
    /\ Regex.is_word (head post) = false.

(** * Properties *)

(** ** Supporting lemmas *)

(** The URL pattern on a few texts: a file name passes for a URL, a numeric
    attachment id does not. *)
Example url_is_detected :
  Regex.matches Regex.url_pattern "https://example.com/cat.png" = true.
Proof. reflexivity. Qed.

Example bare_domain_is_detected :
  Regex.matches Regex.url_pattern "example.com" = true.
Proof. reflexivity. Qed.

Example file_name_is_detected :
  Regex.matches Regex.url_pattern "report.pdf" = true.
Proof. reflexivity. Qed.

Example attachment_id_is_not_a_url :
  Regex.matches Regex.url_pattern "1745504518999123" = false.
Proof. reflexivity. Qed.

(** [typeof body === 'object' && !Array.isArray(body) && body !== null] holds
    of records and of [Error] instances only. *)
Lemma object_test_spec (body : jsval) :
  String.eqb (typeof body) "object" && negb (isArray body) && negb (is_null body)
  = match body with JObj _ | JErr _ => true | _ => false end.
Proof. destruct body; reflexivity. Qed.

(** A transport error rejects the promise with that error. *)
Lemma promise_handler_transport_error JSON_parse (err body : jsval) :
  truthy err = true ->
  promise_handler JSON_parse err body = Normal (Rejected err).
Proof. intros H. unfold promise_handler. now rewrite H. Qed.

(** A body that is not yet an object is parsed; a truthy [error] of the
    parsed body rejects with its [message], otherwise the parsed body is the
    result. *)
Lemma promise_handler_text_body JSON_parse (err body parsed : jsval) :
  truthy err = false ->
  match body with JObj _ | JErr _ => False | _ => True end ->
  JSON_parse body = Normal parsed ->
  promise_handler JSON_parse err body =
    let* error := get_prop parsed "error" in
    if truthy error then
      let* message := get_prop error "message" in
      Normal (Rejected message)
    else Normal (Fulfilled parsed).
Proof.
  intros Herr Hbody Hparse. unfold promise_handler.
  rewrite Herr, object_test_spec.
  destruct body; try contradiction; cbn; rewrite Hparse; reflexivity.
Qed.

(** A body that already is an object fulfils the promise as it is: its
    [error] property is not looked at. *)
Lemma promise_handler_object_body JSON_parse (err : jsval) (props : list (string * jsval)) :
  truthy err = false ->
  promise_handler JSON_parse err (JObj props) = Normal (Fulfilled (JObj props)).
Proof. intros Herr. unfold promise_handler. now rewrite Herr. Qed.

(** Reading a property throws on [undefined] and [null] only. *)
Lemma get_prop_defined (v : jsval) (p : string) :
  nullish v = false -> get_prop v p = Normal (read v p).
Proof. unfold read. destruct v; cbn; intros H; try discriminate; reflexivity. Qed.

(** The callback handler, wherever it does not throw. *)
Lemma callback_handler_spec (cb err body : jsval) :
  truthy err = true \/ nullish body = false ->
  callback_handler cb err body =
    Normal (Invoke cb (if truthy err then [err]
                       else if truthy (read body "error") then [read body "error"]
                       else [JNull; body])).
Proof.
  intros H. unfold callback_handler.
  destruct (truthy err) eqn:Herr; [reflexivity|].
  destruct H as [H|H]; [discriminate|].
  rewrite (get_prop_defined _ _ H). cbn.
  destruct (truthy (read body "error")); reflexivity.
Qed.






(** On a descriptor that does not define [hasOwnProperty] itself, the test
    of the inner [if] finds out whether it is a plain object with both
    properties. *)
Lemma descriptor_test (d : jsval) :
  has_own d "hasOwnProperty" = false ->
  (if String.eqb (class_of d) "[object Object]" then
     let* hostname := hasOwnProperty d "hostname" in
     if hostname then hasOwnProperty d "port" else Normal false
   else Normal false)
  = Normal (carries_both d).
Proof.
  unfold carries_both, has_own.
  destruct d as [| | | | | |props| |[]|]; try reflexivity.
  cbn. destruct (lookup_prop "hasOwnProperty" props); [discriminate|]. intros _.
  cbn. destruct (lookup_prop "hostname" props); reflexivity.
Qed.



Lemma getProxyData_accepted (rd : RequestData) (props : list (string * jsval))
    (h p : jsval) :
  lookup_prop "hasOwnProperty" props = None ->
  lookup_prop "hostname" props = Some h ->
  lookup_prop "port" props = Some p ->
  getProxyData rd (JObj props) =
    let* starts := indexOf_is_zero h "http" in
    let* hs := to_string h in
    let* ps := to_string p in
    Normal {| token := token rd;
              proxy := Some (if starts : bool then hs ++ ":" ++ ps
                             else "http://" ++ hs ++ ":" ++ ps)%string |}.
Proof.
  intros Hs Hh Hp. unfold getProxyData.
  rewrite (descriptor_test (JObj props)) by (unfold has_own; cbn; now rewrite Hs).
  unfold carries_both, has_own, hostname_port. cbn. rewrite Hh, Hp. cbn.
  destruct (indexOf_is_zero h "http") as [[]|e|f args]; cbn; try reflexivity;
    destruct (to_string h) as [hs|e|f args]; cbn; try reflexivity;
    destruct (to_string p) as [ps|e|f args]; reflexivity.
Qed.

(** A descriptor whose own [hasOwnProperty] cannot be called. *)
Lemma getProxyData_shadowed (rd : RequestData) (props : list (string * jsval))
    (f : jsval) :
  lookup_prop "hasOwnProperty" props = Some f -> is_function f = false ->
  getProxyData rd (JObj props) = Throw TypeError.
Proof.
  intros Hf Hno. unfold getProxyData. cbn. now rewrite Hf, Hno.
Qed.

(** [getProxyData] keeps the token. *)
Lemma getProxyData_token (rd rd' : RequestData) (d : jsval) :
  getProxyData rd d = Normal rd' -> token rd' = token rd.
Proof.
  unfold getProxyData. destruct (truthy d); [|now intros [= <-]].
  destruct (if String.eqb (class_of d) "[object Object]" then _ else _)
    as [[]|e|f args]; cbn; try discriminate.
  destruct (get_prop d "hostname") as [h|e|f args]; cbn; try discriminate.
  destruct (indexOf_is_zero h "http") as [[]|e|f args]; cbn; try discriminate;
    destruct (hostname_port d) as [a|e|f args]; cbn; try discriminate;
    now intros [= <-].
Qed.

(** A text in which [n] occurs at position 0 begins with [n]. *)
Lemma substring_prefix (n : string) :
  forall h, substring 0 (String.length n) h = n -> exists rest, h = (n ++ rest)%string.
Proof.
  induction n as [|a n IH]; intros h H.
  - now exists h.
  - destruct h as [|b h]; cbn in H; [discriminate|].
    injection H as -> H. destruct (IH h H) as [rest ->]. now exists rest.
Qed.

Lemma index_zero_prefix (n h : string) :
  String.index 0 n h = Some 0 -> exists rest, h = (n ++ rest)%string.
Proof. intros H. apply substring_prefix. now apply (index_correct1 0 0 n h). Qed.


(** Running a sequence whose first part is known. *)
Lemma bindM_normal {A B} (m : M A) (k : A -> M B) st a st' :
  m st = Normal (a, st') -> bindM m k st = k a st'.
Proof. intros H. unfold bindM. now rewrite H. Qed.

(** The object allocated last is at the end of its store. *)
Lemma lookup_snoc {A} (l : list A) (x : A) : (l ++ [x]) !! length l = Some x.
Proof. now apply list_lookup_middle. Qed.

Lemma insert_snoc {A} (l : list A) (x y : A) : <[length l := y]> (l ++ [x]) = l ++ [y].
Proof.
  rewrite insert_app_r_alt by lia. now rewrite Nat.sub_diag.
Qed.

(** The primitives on a location that holds an object. *)
Lemma update_options_at l f st o :
  options_store st !! l = Some o ->
  update_options l f st =
    Normal (tt, {| options_store := <[l := f o]> (options_store st);
                   qs_store := qs_store st; outbox := outbox st |}).
Proof.
  intros H. unfold update_options, bindM, read_options. now rewrite H.
Qed.

Lemma update_qs_at l g st o q :
  options_store st !! l = Some o ->
  qs_store st !! qs o = Some q ->
  update_qs l g st =
    Normal (tt, {| options_store := options_store st;
                   qs_store := <[qs o := g q]> (qs_store st);
                   outbox := outbox st |}).
Proof.
  intros H1 H2. unfold update_qs, bindM, read_options, read_qs. now rewrite H1, H2.
Qed.

Lemma request_at l h st o q :
  options_store st !! l = Some o ->
  qs_store st !! qs o = Some q ->
  request l h st =
    Normal (length (outbox st),
            log {| issued_options := l; issued_wire := wire_of o q;
                   issued_handler := h |} st).
Proof.
  intros H1 H2. unfold request, bindM, read_options, read_qs. now rewrite H1, H2.
Qed.

(** [JSON.parse] reads back what [JSON.stringify] has written. *)
Lemma stringified_fields (u : string) (qj : jsval) (m p : option string) (j : option jsval) :
  let props := [("url", JStr u); ("qs", qj)] ++ field "method" (JStr <$> m)
                 ++ field "proxy" (JStr <$> p) ++ field "json" j in
  lookup_prop "url" props = Some (JStr u)
  /\ lookup_prop "qs" props = Some qj
  /\ string_field "method" props = m
  /\ string_field "proxy" props = p
  /\ lookup_prop "json" props = j.
Proof. destruct m, p, j; repeat split; reflexivity. Qed.

Lemma stringified_qs (a f : option string) :
  let props := field "access_token" (JStr <$> a) ++ field "fields" (JStr <$> f) in
  string_field "access_token" props = a /\ string_field "fields" props = f.
Proof. destruct a, f; split; reflexivity. Qed.

(** [getRequestOptions] allocates a copy of the base. *)
Lemma getRequestOptions_at st b qb :
  options_store st !! requestOptions = Some b ->
  qs_store st !! qs b = Some qb ->
  getRequestOptions st =
    Normal (length (options_store st),
            alloc (json_copy b (length (qs_store st))) qb st).
Proof.
  intros Hb Hq. unfold getRequestOptions, JSON_stringify, bindM, read_options, read_qs, ret.
  rewrite Hb, Hq. unfold JSON_parse_options.
  destruct (stringified_fields (url b)
              (JObj (field "access_token" (JStr <$> access_token qb)
                     ++ field "fields" (JStr <$> fields qb)))
              (method b) (opt_proxy b) (json b ≫= to_json))
    as (Hu & Hqs & Hm & Hp & Hj).
  cbn zeta in *. rewrite Hu, Hqs, Hm, Hp, Hj.
  destruct (stringified_qs (access_token qb) (fields qb)) as [Ha Hf].
  cbn zeta in *. rewrite Ha, Hf. destruct qb. reflexivity.
Qed.

(** [sendMessage] on an existing option object: the token goes into its
    [qs], the proxy into the object, and one call of [request] is logged. *)
Lemma sendMessage_at l rd cb st o q :
  options_store st !! l = Some o ->
  qs_store st !! qs o = Some q ->
  sendMessage l rd cb st =
    Normal (returned_for cb (length (outbox st)),
            {| options_store := <[l := with_proxy rd o]> (options_store st);
               qs_store := <[qs o := set_access_token (Some (token rd)) q]> (qs_store st);
               outbox := outbox st ++
                 [ {| issued_options := l;
                      issued_wire := wire_of (with_proxy rd o)
                                       (set_access_token (Some (token rd)) q);
                      issued_handler := handler_for cb |} ] |}).
Proof.
  intros Ho Hq. unfold sendMessage.
  erewrite bindM_normal by (eapply update_qs_at; eassumption).
  assert (Hlt : l < length (options_store st)) by (eapply lookup_lt_Some; eassumption).
  assert (Hqlt : qs o < length (qs_store st)) by (eapply lookup_lt_Some; eassumption).
  set (st1 := {| options_store := options_store st;
                 qs_store := <[qs o := set_access_token (Some (token rd)) q]> (qs_store st);
                 outbox := outbox st |}).
  assert (Hstep : (match proxy rd with
                   | Some p => update_options l (set_proxy (Some p))
                   | None => ret tt
                   end) st1
                  = Normal (tt, {| options_store := <[l := with_proxy rd o]> (options_store st);
                                   qs_store := qs_store st1; outbox := outbox st |})).
  { unfold with_proxy. destruct (proxy rd) as [p|].
    - erewrite update_options_at by (cbn; eassumption). reflexivity.
    - unfold ret. cbn. now rewrite list_insert_id. }
  erewrite bindM_normal by exact Hstep.
  assert (Ho' : (<[l := with_proxy rd o]> (options_store st)) !! l = Some (with_proxy rd o))
    by now apply list_lookup_insert_eq.
  assert (Hqs' : qs (with_proxy rd o) = qs o)
    by (unfold with_proxy; destruct (proxy rd); reflexivity).
  assert (Hq' : (<[qs o := set_access_token (Some (token rd)) q]> (qs_store st))
                  !! qs (with_proxy rd o)
                = Some (set_access_token (Some (token rd)) q))
    by (rewrite Hqs'; now apply list_lookup_insert_eq).
  unfold returned_for, handler_for, is_function.
  destruct (String.eqb (typeof cb) "function"); cbn [negb].
  - erewrite bindM_normal by (eapply request_at; cbn; eassumption). reflexivity.
  - erewrite bindM_normal by (eapply request_at; cbn; eassumption). reflexivity.
Qed.

(** The methods, step by step, from a state whose base object is [b] with
    [qs] object [qb]. *)
Lemma generateBasicRequestPayload_at id st b qb :
  options_store st !! requestOptions = Some b ->
  qs_store st !! qs b = Some qb ->
  generateBasicRequestPayload id st =
    Normal (length (options_store st),
            alloc {| url := url b ++ "me/messages"; qs := length (qs_store st);
                     method := Some "POST"; opt_proxy := opt_proxy b;
                     json := Some (JObj [("recipient", JObj [("id", JStr id)])]) |}
              qb st).
Proof.
  intros Hb Hq. unfold generateBasicRequestPayload.
  erewrite bindM_normal by (eapply getRequestOptions_at; eassumption).
  unfold alloc.
  erewrite bindM_normal by (eapply update_options_at; cbn; apply lookup_snoc).
  cbn [options_store qs_store outbox]. rewrite insert_snoc.
  erewrite bindM_normal by (eapply update_options_at; cbn; apply lookup_snoc).
  cbn [options_store qs_store outbox]. rewrite insert_snoc.
  erewrite bindM_normal by (eapply update_options_at; cbn; apply lookup_snoc).
  cbn [options_store qs_store outbox]. rewrite insert_snoc.
  reflexivity.
Qed.

Lemma sendMessage_new rd cb st o q :
  qs o = length (qs_store st) ->
  sendMessage (length (options_store st)) rd cb (alloc o q st) =
    Normal (returned_for cb (length (outbox st)),
            sent st (with_proxy rd o) (set_access_token (Some (token rd)) q) cb).
Proof.
  intros Hqs.
  erewrite sendMessage_at; [|apply lookup_snoc|cbn; rewrite Hqs; apply lookup_snoc].
  cbn [alloc options_store qs_store outbox]. rewrite Hqs, !insert_snoc. reflexivity.
Qed.

Lemma sendAction_at this id payload cb st b qb :
  options_store st !! requestOptions = Some b ->
  qs_store st !! qs b = Some qb ->
  sendAction this id payload cb st =
    Normal (returned_for cb (length (outbox st)),
            sent st
              (with_proxy (requestData this)
                 {| url := url b ++ "me/messages"; qs := length (qs_store st);
                    method := Some "POST"; opt_proxy := opt_proxy b;
                    json := Some (JObj [("recipient", JObj [("id", JStr id)]);
                                        ("sender_action", JStr payload)]) |})
              (set_access_token (Some (token (requestData this))) qb) cb).
Proof.
  intros Hb Hq. unfold sendAction.
  erewrite bindM_normal by (eapply generateBasicRequestPayload_at; eassumption).
  unfold alloc.
  erewrite bindM_normal by (eapply update_options_at; cbn; apply lookup_snoc).
  cbn [options_store qs_store outbox]. rewrite insert_snoc.
  apply (sendMessage_new (requestData this) cb st). reflexivity.
Qed.

Lemma sendDisplayMessage_at this id payload t cb st b qb :
  options_store st !! requestOptions = Some b ->
  qs_store st !! qs b = Some qb ->
  sendDisplayMessage this id payload t cb st =
    Normal (returned_for cb (length (outbox st)),
            sent st
              (with_proxy (requestData this)
                 {| url := url b ++ "me/messages"; qs := length (qs_store st);
                    method := Some "POST"; opt_proxy := opt_proxy b;
                    json := Some (JObj ([("recipient", JObj [("id", JStr id)]);
                                         ("message", payload)] ++ tag_fields t)) |})
              (set_access_token (Some (token (requestData this))) qb) cb).
Proof.
  intros Hb Hq. unfold sendDisplayMessage.
  erewrite bindM_normal by (eapply generateBasicRequestPayload_at; eassumption).
  unfold alloc.
  erewrite bindM_normal by (eapply update_options_at; cbn; apply lookup_snoc).
  cbn [options_store qs_store outbox]. rewrite insert_snoc.
  destruct t as [t|].
  - erewrite bindM_normal by (eapply update_options_at; cbn; apply lookup_snoc).
    cbn [options_store qs_store outbox]. rewrite insert_snoc.
    apply (sendMessage_new (requestData this) cb st). reflexivity.
  - erewrite bindM_normal by reflexivity.
    apply (sendMessage_new (requestData this) cb st). reflexivity.
Qed.

Lemma getUserProfile_at this id fieldsArray cb st b qb :
  options_store st !! requestOptions = Some b ->
  qs_store st !! qs b = Some qb ->
  getUserProfile this id fieldsArray cb st =
    Normal (returned_for cb (length (outbox st)),
            sent st
              (with_proxy (requestData this)
                 {| url := url b ++ id; qs := length (qs_store st);
                    method := Some "GET"; opt_proxy := opt_proxy b;
                    json := json b ≫= to_json |})
              (set_access_token (Some (token (requestData this)))
                 (set_fields (Some (profile_fields fieldsArray)) qb)) cb).
Proof.
  intros Hb Hq. unfold getUserProfile.
  erewrite bindM_normal by (eapply getRequestOptions_at; eassumption).
  unfold alloc.
  erewrite bindM_normal by (eapply update_options_at; cbn; apply lookup_snoc).
  cbn [options_store qs_store outbox]. rewrite insert_snoc.
  erewrite bindM_normal
    by (eapply update_qs_at; cbn; [apply lookup_snoc | apply lookup_snoc]).
  cbn [options_store qs_store outbox qs json_copy set_url]. rewrite insert_snoc.
  erewrite bindM_normal by (eapply update_options_at; cbn; apply lookup_snoc).
  cbn [options_store qs_store outbox]. rewrite insert_snoc.
  apply (sendMessage_new (requestData this) cb st). reflexivity.
Qed.

(** The two function tests of the source: what has the class string of a
    function is a function, but not the other way round. *)
Lemma plain_function_is_function (v : jsval) :
  is_plain_function v = true -> is_function v = true.
Proof. destruct v as [| | | | | | | |[]|]; cbn; congruence. Qed.

Lemma sendUrlOrIdBasedMessage_at this id type s t cb st b qb :
  options_store st !! requestOptions = Some b ->
  qs_store st !! qs b = Some qb ->
  sendUrlOrIdBasedMessage this id type s t cb st =
    Normal (returned_for cb (length (outbox st)),
            sent st
              (with_proxy (requestData this)
                 {| url := url b ++ "me/messages"; qs := length (qs_store st);
                    method := Some "POST"; opt_proxy := opt_proxy b;
                    json := Some (display_body id (attachment type (media_payload s)) t) |})
              (set_access_token (Some (token (requestData this))) qb) cb).
Proof.
  intros Hb Hq. unfold sendUrlOrIdBasedMessage, sendAttachmentMessage, media_payload.
  rewrite (sendDisplayMessage_at _ _ _ _ _ _ _ _ Hb Hq).
  destruct (Regex.matches Regex.url_pattern s); reflexivity.
Qed.

(** Every public method allocates one option object, fills it as [built]
    says and hands it to [request]. *)
Lemma perform_at this c st b qb :
  options_store st !! requestOptions = Some b ->
  qs_store st !! qs b = Some qb ->
  perform this c st =
    Normal (returned_for (callback_of c) (length (outbox st)),
            sent st (built this b (length (qs_store st)) c) (built_qs this qb c)
              (callback_of c)).
Proof.
  intros Hb Hq.
  destruct c; unfold perform, callback_of, built, built_qs, body_of; cbv iota.
  - apply sendAction_at; assumption.
  - unfold toggleTyping, toggle_of, toggleAction.
    fold (is_plain_function (nth 0 rest JUndefined)).
    destruct (S (length rest) =? 3)%nat.
    + destruct (truthy (nth 0 rest JUndefined)); apply sendAction_at; assumption.
    + destruct (is_plain_function (nth 0 rest JUndefined)).
      * apply sendAction_at; assumption.
      * destruct (truthy (nth 0 rest JUndefined)); apply sendAction_at; assumption.
  - unfold sendTextMessage. apply sendDisplayMessage_at; assumption.
  - apply sendUrlOrIdBasedMessage_at; assumption.
  - apply sendUrlOrIdBasedMessage_at; assumption.
  - apply sendUrlOrIdBasedMessage_at; assumption.
  - apply sendUrlOrIdBasedMessage_at; assumption.
  - unfold sendButtonsMessage, sendAttachmentMessage.
    apply sendDisplayMessage_at; assumption.
  - unfold sendTemplateMessage, sendAttachmentMessage.
    apply sendDisplayMessage_at; assumption.
  - unfold sendQuickReplyMessage.
    rewrite (sendDisplayMessage_at _ _ _ _ _ _ _ _ Hb Hq).
    destruct (String.eqb (typeof textOrAttachment) "string"); reflexivity.
  - apply getUserProfile_at; assumption.
Qed.

(** The invariant holds initially, and gives the base object and the [qs]
    object of every option object. *)
Lemma wf_initial : wf initial.
Proof.
  split.
  - eexists; reflexivity.
  - intros [|l] o H; cbn in H; [|destruct l; discriminate].
    injection H as <-. cbn. lia.
  - intros [|l] o b _ H Hne; [now destruct Hne|]. destruct l; discriminate.
Qed.

Lemma wf_lookup st :
  wf st ->
  exists b qb, options_store st !! requestOptions = Some b
               /\ qs_store st !! qs b = Some qb.
Proof.
  intros [[b Hb] Hq _]. exists b.
  destruct (lookup_lt_is_Some_2 (qs_store st) (qs b) (Hq _ _ Hb)) as [qb Hqb].
  now exists qb.
Qed.

Lemma wf_lookup_qs st l o :
  wf st -> options_store st !! l = Some o ->
  exists q, qs_store st !! qs o = Some q.
Proof.
  intros Hwf Ho.
  destruct (lookup_lt_is_Some_2 (qs_store st) (qs o) (wf_qs _ Hwf _ _ Ho)) as [q Hq].
  now exists q.
Qed.

(** The view of an object that is there. *)
Lemma view_at st l o q :
  options_store st !! l = Some o -> qs_store st !! qs o = Some q ->
  view st l = Some (wire_of o q).
Proof. intros Ho Hq. unfold view. rewrite Ho. cbn. rewrite Hq. reflexivity. Qed.

(** Allocation leaves every object that existed as it was. *)
Lemma wf_alloc st o q :
  wf st -> qs o = length (qs_store st) -> wf (alloc o q st).
Proof.
  intros [[b Hb] Hq Hp] Hqs.
  assert (Hb0 : requestOptions < length (options_store st))
    by (eapply lookup_lt_Some; eassumption).
  split; cbn [alloc options_store qs_store].
  - exists b. now rewrite lookup_app_l.
  - intros l x Hl. rewrite length_app. cbn.
    destruct (decide (l < length (options_store st))) as [Hlt|Hge].
    + rewrite lookup_app_l in Hl by assumption. specialize (Hq _ _ Hl). lia.
    + rewrite lookup_app_r in Hl by lia.
      destruct (l - length (options_store st)) as [|n]; cbn in Hl; [|discriminate].
      injection Hl as <-. lia.
  - intros l x b' Hb' Hl Hne.
    rewrite lookup_app_l in Hb' by assumption.
    destruct (decide (l < length (options_store st))) as [Hlt|Hge].
    + rewrite lookup_app_l in Hl by assumption. eauto.
    + rewrite lookup_app_r in Hl by lia.
      destruct (l - length (options_store st)) as [|n]; cbn in Hl; [|discriminate].
      injection Hl as <-. specialize (Hq _ _ Hb'). lia.
Qed.

(** Allocation shows existing objects as before, and the new one. *)
Lemma view_alloc st o q l :
  wf st -> is_Some (options_store st !! l) ->
  view (alloc o q st) l = view st l.
Proof.
  intros Hwf [x Hx]. destruct (wf_lookup_qs _ _ _ Hwf Hx) as [qx Hqx].
  rewrite (view_at st l x qx Hx Hqx).
  apply view_at; cbn [alloc options_store qs_store].
  - rewrite lookup_app_l by (eapply lookup_lt_Some; eassumption). assumption.
  - rewrite lookup_app_l by (eapply lookup_lt_Some; eassumption). assumption.
Qed.

Lemma view_alloc_new st o q :
  qs o = length (qs_store st) ->
  view (alloc o q st) (length (options_store st)) = Some (wire_of o q).
Proof.
  intros Hqs. apply view_at; cbn [alloc options_store qs_store].
  - apply lookup_snoc.
  - rewrite Hqs. apply lookup_snoc.
Qed.

(** Logging a call touches no object. *)
Lemma wf_log st i : wf st -> wf (log i st).
Proof. intros [H1 H2 H3]. split; assumption. Qed.

Lemma view_log st i l : view (log i st) l = view st l.
Proof. reflexivity. Qed.

(** What a method leaves is an allocation and a logged call. *)
Lemma sent_alloc st o q cb :
  sent st o q cb
  = log {| issued_options := length (options_store st);
           issued_wire := wire_of o q; issued_handler := handler_for cb |}
      (alloc o q st).
Proof. reflexivity. Qed.

(** A write to an object that keeps its [qs] reference, and to that [qs]
    object, keeps the invariant and is not seen through any other object
    with another [qs]. *)
Lemma wf_written st l o o' q' :
  wf st -> options_store st !! l = Some o -> qs o' = qs o ->
  wf (written l o' (qs o) q' st).
Proof.
  intros [[b Hb] Hq Hp] Hl Hqs.
  assert (Hlt : l < length (options_store st)) by (eapply lookup_lt_Some; eassumption).
  assert (Hkeep : forall l' x, <[l := o']> (options_store st) !! l' = Some x ->
                    exists y, options_store st !! l' = Some y /\ qs x = qs y).
  { intros l' x Hx. destruct (decide (l = l')) as [<-|Hne].
    - rewrite list_lookup_insert_eq in Hx by assumption. injection Hx as <-.
      exists o. split; [assumption|exact Hqs].
    - rewrite list_lookup_insert_ne in Hx by assumption. now exists x. }
  split; cbn [written options_store qs_store].
  - destruct (decide (l = requestOptions)) as [->|Hne].
    + exists o'. now apply list_lookup_insert_eq.
    + exists b. now rewrite list_lookup_insert_ne.
  - intros l' x Hx. rewrite length_insert.
    destruct (Hkeep _ _ Hx) as (y & Hy & ->). eauto.
  - intros l' x b' Hb' Hx Hne.
    destruct (Hkeep _ _ Hx) as (y & Hy & ->).
    destruct (Hkeep _ _ Hb') as (z & Hz & ->).
    eauto.
Qed.

Lemma view_written st l o o' q' l' x :
  options_store st !! l = Some o ->
  options_store st !! l' = Some x ->
  l' <> l -> qs x <> qs o ->
  view (written l o' (qs o) q' st) l' = view st l'.
Proof.
  intros Hl Hx Hne Hqne.
  assert (H1 : options_store (written l o' (qs o) q' st) !! l' = Some x)
    by (cbn [written options_store]; rewrite list_lookup_insert_ne by congruence;
        assumption).
  assert (H2 : qs_store (written l o' (qs o) q' st) !! qs x = qs_store st !! qs x)
    by (cbn [written qs_store]; now rewrite list_lookup_insert_ne by congruence).
  unfold view. rewrite H1, Hx. cbn [mbind option_bind]. now rewrite H2.
Qed.

Lemma view_written_same st l o o' q' :
  wf st -> options_store st !! l = Some o -> qs o' = qs o ->
  view (written l o' (qs o) q' st) l = Some (wire_of o' q').
Proof.
  intros Hwf Hl Hqs. apply view_at; cbn [written options_store qs_store].
  - apply list_lookup_insert_eq. eapply lookup_lt_Some; eassumption.
  - rewrite Hqs. apply list_lookup_insert_eq. eapply wf_qs; eassumption.
Qed.

(** Each assignment is such a write. *)
Lemma written_options st l o' o q :
  qs_store st !! qs o = Some q ->
  {| options_store := <[l := o']> (options_store st);
     qs_store := qs_store st; outbox := outbox st |}
  = written l o' (qs o) q st.
Proof. intros Hq. unfold written. now rewrite (list_insert_id _ _ _ Hq). Qed.

Lemma written_qs st l o q' :
  options_store st !! l = Some o ->
  {| options_store := options_store st;
     qs_store := <[qs o := q']> (qs_store st); outbox := outbox st |}
  = written l o (qs o) q' st.
Proof. intros Ho. unfold written. now rewrite (list_insert_id _ _ _ Ho). Qed.

Lemma mutate_at st l m o q :
  options_store st !! l = Some o ->
  qs_store st !! qs o = Some q ->
  exists o' q', qs o' = qs o
    /\ mutate l m st = Normal (tt, written l o' (qs o) q' st).
Proof.
  intros Ho Hq.
  destruct m; cbn [mutate];
    first [ rewrite (update_options_at _ _ _ _ Ho);
            rewrite (written_options _ _ _ _ _ Hq);
            eexists _, _; split; [|reflexivity]; reflexivity
          | rewrite (update_qs_at _ _ _ _ _ Ho Hq);
            rewrite (written_qs _ _ _ _ Ho);
            eexists _, _; split; [|reflexivity]; reflexivity ].
Qed.

(** A run of assignments through [l] succeeds, keeps the invariant and the
    [qs] reference of [l], and leaves every object apart from [l] and its
    [qs] as it was. *)
Lemma mutate_all_frame (ms : list mutation) :
  forall st l o,
    wf st -> options_store st !! l = Some o ->
    exists st',
      mutate_all l ms st = Normal (tt, st')
      /\ wf st'
      /\ (exists o', options_store st' !! l = Some o' /\ qs o' = qs o)
      /\ (forall l' x, options_store st !! l' = Some x -> l' <> l -> qs x <> qs o ->
            view st' l' = view st l' /\ options_store st' !! l' = Some x).
Proof.
  induction ms as [|m ms IH]; intros st l o Hwf Ho.
  - exists st. split; [reflexivity|]. split; [assumption|].
    split; [now exists o|]. intros l' x Hx _ _. now split.
  - destruct (wf_lookup_qs _ _ _ Hwf Ho) as [q Hq].
    destruct (mutate_at st l m o q Ho Hq) as (o1 & q1 & Hqs & Hm).
    assert (Hlt : l < length (options_store st)) by (eapply lookup_lt_Some; eassumption).
    assert (Hwf1 : wf (written l o1 (qs o) q1 st)) by (eapply wf_written; eassumption).
    assert (Ho1 : options_store (written l o1 (qs o) q1 st) !! l = Some o1)
      by (cbn [written options_store]; now apply list_lookup_insert_eq).
    destruct (IH _ l o1 Hwf1 Ho1) as (st' & Hrun & Hwf' & (o' & Ho' & Hqs') & Hframe).
    exists st'. split; [|split; [assumption|split]].
    + cbn [mutate_all]. erewrite bindM_normal by exact Hm. exact Hrun.
    + exists o'. split; [assumption|congruence].
    + intros l' x Hx Hne Hqne.
      assert (Hx1 : options_store (written l o1 (qs o) q1 st) !! l' = Some x)
        by (cbn [written options_store]; rewrite list_lookup_insert_ne by congruence;
            assumption).
      destruct (Hframe l' x Hx1 Hne ltac:(congruence)) as [Hv Hl'].
      split; [|assumption].
      rewrite Hv. eapply view_written; eassumption.
Qed.

(** The copy [getRequestOptions] returns is new, holds what the base holds,
    and shares nothing with any object [l] that existed: assignments through
    either leave the other as it was. *)
Lemma getRequestOptions_fresh st :
  wf st ->
  exists r st',
    getRequestOptions st = Normal (r, st')
    /\ wf st'
    /\ options_store st !! r = None
    /\ view st' r = json_view <$> view st requestOptions
    /\ forall l, is_Some (options_store st !! l) ->
         l <> r
         /\ view st' l = view st l
         /\ forall ms,
              (exists st'', mutate_all r ms st' = Normal (tt, st'')
                            /\ view st'' l = view st' l)
              /\ (exists st'', mutate_all l ms st' = Normal (tt, st'')
                               /\ view st'' r = view st' r).
Proof.
  intros Hwf. destruct (wf_lookup _ Hwf) as (b & qb & Hb & Hqb).
  set (c := json_copy b (length (qs_store st))).
  exists (length (options_store st)), (alloc c qb st).
  assert (Hwf' : wf (alloc c qb st)) by (now apply wf_alloc).
  assert (Hc : options_store (alloc c qb st) !! length (options_store st) = Some c)
    by apply lookup_snoc.
  split; [now apply getRequestOptions_at|].
  split; [assumption|].
  split; [now apply lookup_ge_None_2|].
  split.
  { rewrite view_alloc_new by reflexivity.
    rewrite (view_at _ _ _ _ Hb Hqb). reflexivity. }
  intros l [x Hx].
  assert (Hlt : l < length (options_store st)) by (eapply lookup_lt_Some; eassumption).
  assert (Hx' : options_store (alloc c qb st) !! l = Some x)
    by (cbn [alloc options_store]; now rewrite lookup_app_l).
  assert (Hqx : qs x < length (qs_store st)) by (eapply wf_qs; eassumption).
  split; [lia|]. split; [apply view_alloc; eauto|].
  intros ms. split.
  - destruct (mutate_all_frame ms _ _ _ Hwf' Hc) as (st'' & Hrun & _ & _ & Hframe).
    exists st''. split; [assumption|].
    apply (Hframe l x Hx'); [lia|]. cbn. lia.
  - destruct (mutate_all_frame ms _ _ _ Hwf' Hx') as (st'' & Hrun & _ & _ & Hframe).
    exists st''. split; [assumption|].
    apply (Hframe _ c Hc); [lia|]. cbn. lia.
Qed.

(** Projections of the built objects. *)
Lemma with_url_same (w : Wire) : with_url (wire_url w) w = w.
Proof. now destruct w. Qed.

Lemma qs_with_proxy rd o : qs (with_proxy rd o) = qs o.
Proof. unfold with_proxy. now destruct (proxy rd). Qed.

Lemma qs_built this b q c : qs (built this b q c) = q.
Proof. unfold built. rewrite qs_with_proxy. now destruct c. Qed.

(** [setAPIVersion] rewrites the [url] of the base and nothing else. *)
Lemma setAPIVersion_frame st v :
  wf st ->
  exists st', setAPIVersion v st = Normal (tt, st')
    /\ wf st'
    /\ view st' requestOptions
       = with_url ("https://graph.facebook.com/v" ++ v ++ "/")
           <$> view st requestOptions.
Proof.
  intros Hwf. destruct (wf_lookup _ Hwf) as (b & qb & Hb & Hqb).
  eexists. split; [|split].
  - unfold setAPIVersion. rewrite (update_options_at _ _ _ _ Hb).
    rewrite (written_options _ _ _ _ _ Hqb). reflexivity.
  - eapply wf_written; eauto.
  - rewrite (view_written_same _ _ _ _ _ Hwf Hb) by reflexivity.
    rewrite (view_at _ _ _ _ Hb Hqb). reflexivity.
Qed.

(** A write through another object than the base is not seen through the
    base. *)
Lemma written_frame st l o o' q' i :
  wf st -> options_store st !! l = Some o -> qs o' = qs o ->
  l <> requestOptions ->
  wf (log i (written l o' (qs o) q' st))
  /\ view (log i (written l o' (qs o) q' st)) requestOptions
     = view st requestOptions.
Proof.
  intros Hwf Ho Hqs Hne. split.
  - apply wf_log. eapply wf_written; eassumption.
  - rewrite view_log. destruct (wf_base _ Hwf) as [b Hb].
    eapply view_written; try eassumption; [congruence|].
    intros Heq. eapply (wf_private _ Hwf l o b); eauto.
Qed.

(** One operation keeps the invariant, and of the base object changes at
    most [url], to the one of the version it sets. *)
Lemma step_frame st op :
  wf st -> keeps_private op ->
  wf (step st op)
  /\ view (step st op) requestOptions
     = (fun w => with_url (versioned (wire_url w) op) w) <$> view st requestOptions.
Proof.
  intros Hwf Hpriv.
  destruct (wf_lookup _ Hwf) as (b & qb & Hb & Hqb).
  assert (Hsame : view st requestOptions
                  = (fun w => with_url (wire_url w) w) <$> view st requestOptions).
  { rewrite (view_at _ _ _ _ Hb Hqb). reflexivity. }
  unfold step, versioned.
  destruct op as [tok pd ver|this c|l rd cb| |ver|o' q'|l m];
    cbn [exec version_set keeps_private] in *.
  - unfold constructor, lift.
    destruct (getProxyData {| token := tok; proxy := None |} pd) as [rd|e|f args];
      [|unfold bindM; split; assumption..].
    destruct (truthy ver).
    + destruct (to_string ver) as [v|e|f args];
        [|unfold bindM; split; assumption..].
      destruct (setAPIVersion_frame st v Hwf) as (st' & Hrun & Hwf' & Hv).
      unfold bindM, ret. rewrite Hrun. split; assumption.
    + unfold bindM, ret. split; assumption.
  - unfold bindM. rewrite (perform_at _ _ _ _ _ Hb Hqb). unfold ret.
    rewrite sent_alloc. split.
    + apply wf_log, wf_alloc; [assumption|apply qs_built].
    + rewrite view_log, view_alloc by eauto. assumption.
  - destruct (options_store st !! l) as [o|] eqn:Ho.
    + destruct (wf_lookup_qs _ _ _ Hwf Ho) as [q Hq].
      unfold bindM. rewrite (sendMessage_at _ _ _ _ _ _ Ho Hq). unfold ret.
      destruct (written_frame st l o (with_proxy rd o)
                  (set_access_token (Some (token rd)) q)
                  {| issued_options := l;
                     issued_wire := wire_of (with_proxy rd o)
                                      (set_access_token (Some (token rd)) q);
                     issued_handler := handler_for cb |}
                  Hwf Ho (qs_with_proxy rd o) Hpriv) as [H1 H2].
      split; [exact H1|]. etransitivity; [exact H2|exact Hsame].
    + unfold bindM, sendMessage, bindM, update_qs, bindM, read_options.
      rewrite Ho. split; assumption.
  - unfold bindM. rewrite (getRequestOptions_at _ _ _ Hb Hqb). unfold ret. split.
    + apply wf_alloc; [assumption|reflexivity].
    + rewrite view_alloc by eauto. assumption.
  - destruct (setAPIVersion_frame st ver Hwf) as (st' & Hrun & Hwf' & Hv).
    rewrite Hrun. split; assumption.
  - split.
    + apply wf_alloc; [assumption|reflexivity].
    + rewrite view_alloc by eauto. assumption.
  - destruct (options_store st !! l) as [o|] eqn:Ho.
    + destruct (wf_lookup_qs _ _ _ Hwf Ho) as [q Hq].
      destruct (mutate_at st l m o q Ho Hq) as (o' & q' & Hqs & Hm).
      rewrite Hm.
      destruct (written_frame st l o o' q'
                  {| issued_options := l; issued_wire := wire_of o q;
                     issued_handler := PromiseHandler |}
                  Hwf Ho Hqs Hpriv) as [H1 H2].
      rewrite view_log in H2. split.
      * eapply wf_written; eassumption.
      * etransitivity; [exact H2|exact Hsame].
    + assert (Hthrow : mutate l m st = Throw TypeError).
      { destruct m; cbn [mutate];
          unfold update_options, update_qs, bindM, read_options; now rewrite Ho. }
      rewrite Hthrow. split; assumption.
Qed.

(** The same for a program. *)
Lemma run_frame ops :
  forall st,
    wf st -> Forall keeps_private ops ->
    wf (run ops st)
    /\ view (run ops st) requestOptions
       = (fun w => with_url (fold_left versioned ops (wire_url w)) w)
           <$> view st requestOptions.
Proof.
  induction ops as [|op ops IH]; intros st Hwf Hall.
  - split; [assumption|]. cbn.
    destruct (view st requestOptions) as [w|]; cbn; [|reflexivity].
    now rewrite with_url_same.
  - inversion Hall as [|x xs Hop Hrest]; subst.
    destruct (step_frame st op Hwf Hop) as [Hwf1 Hv1].
    destruct (IH _ Hwf1 Hrest) as [Hwf2 Hv2].
    change (run (op :: ops) st) with (run ops (step st op)).
    split; [exact Hwf2|]. rewrite Hv2, Hv1.
    destruct (view st requestOptions) as [w|]; reflexivity.
Qed.

(** The call of [request] a method has logged. *)
Lemma issued_by_sent {A} (r : A) st o q cb :
  issued_by (Normal (r, sent st o q cb))
  = Some {| issued_options := length (options_store st);
            issued_wire := wire_of o q;
            issued_handler := handler_for cb |}.
Proof. unfold issued_by. cbn [state_of mbind option_bind sent outbox]. apply last_snoc. Qed.

Lemma json_with_proxy rd o : json (with_proxy rd o) = json o.
Proof. unfold with_proxy. now destruct (proxy rd). Qed.

Lemma json_built this b q c : json (built this b q c) = body_of (json b) c.
Proof. unfold built. rewrite json_with_proxy. now destruct c. Qed.

(** What any public method hands to [request], in a state that satisfies
    the invariant. *)
Lemma perform_sends this c st :
  wf st ->
  exists b,
    options_store st !! requestOptions = Some b
    /\ value_of (perform this c st)
       = Some (returned_for (callback_of c) (length (outbox st)))
    /\ sent_json (perform this c st) = body_of (json b) c
    /\ sent_handler (perform this c st) = Some (handler_for (callback_of c)).
Proof.
  intros Hwf. destruct (wf_lookup _ Hwf) as (b & qb & Hb & Hqb).
  exists b. rewrite (perform_at _ _ _ _ _ Hb Hqb).
  unfold sent_json, sent_handler. rewrite issued_by_sent.
  repeat split; [assumption|]. cbn. apply json_built.
Qed.

(** Without a base object and its [qs], [markSeen] throws. *)
Lemma markSeen_needs_base this id cb st :
  (forall b qb, options_store st !! requestOptions = Some b ->
                qs_store st !! qs b = Some qb -> False) ->
  markSeen this id cb st = Throw TypeError.
Proof.
  intros Hno.
  unfold markSeen, sendAction, generateBasicRequestPayload, getRequestOptions,
    JSON_stringify, bindM, read_options, read_qs.
  destruct (options_store st !! requestOptions) as [b|] eqn:Hb; [|reflexivity].
  destruct (qs_store st !! qs b) as [qb|] eqn:Hqb; [|reflexivity].
  destruct (Hno b qb eq_refl Hqb).
Qed.

(** A location with a view holds an object; the base has a view. *)
Lemma view_is_Some st l :
  is_Some (view st l) -> is_Some (options_store st !! l).
Proof.
  intros [w Hw]. unfold view in Hw.
  destruct (options_store st !! l); [eauto|discriminate].
Qed.

Lemma view_base_is_Some st : wf st -> is_Some (view st requestOptions).
Proof.
  intros Hwf. destruct (wf_lookup _ Hwf) as (b & qb & Hb & Hqb).
  rewrite (view_at _ _ _ _ Hb Hqb). eauto.
Qed.

(** Operations that set no version keep the [url]. *)
Lemma versioned_none ops :
  Forall (fun op => version_set op = None) ops ->
  forall u, fold_left versioned ops u = u.
Proof.
  induction 1 as [|op ops Hop _ IH]; intros u; [reflexivity|].
  cbn [fold_left]. unfold versioned at 2. rewrite Hop. apply IH.
Qed.

(** Reading one more character. *)
Lemma last_or_cons prev c s : last_or prev (c :: s) = last_or (Some c) s.
Proof.
  unfold last_or. destruct s as [|d s]; [reflexivity|]. rewrite last_cons_cons.
  destruct (last (d :: s)) eqn:Hl; [reflexivity|].
  apply last_None in Hl. discriminate.
Qed.

(** A bounded repetition accepts exactly by reading between [lo] and [hi]
    characters of its class and handing the rest on. *)
Lemma rep_sound p : forall hi lo prev s k,
  Regex.rep p lo hi prev s k = true ->
  exists s1 s2, s = s1 ++ s2 /\ forallb p s1 = true
    /\ lo <= length s1 <= hi /\ k (last_or prev s1) s2 = true.
Proof.
  induction hi as [|hi IH]; intros lo prev s k H; cbn [Regex.rep] in H.
  - destruct (lo =? 0)%nat eqn:Hlo; [|discriminate].
    apply Nat.eqb_eq in Hlo. exists [], s. repeat split; cbn; [lia..|assumption].
  - destruct (lo =? 0)%nat eqn:Hlo.
    + apply Nat.eqb_eq in Hlo. destruct (k prev s) eqn:Hk.
      * exists [], s. repeat split; cbn; [lia..|assumption].
      * destruct s as [|c s]; [discriminate|]. destruct (p c) eqn:Hp; [|discriminate].
        destruct (IH _ _ _ _ H) as (s1 & s2 & -> & Hall & Hlen & Hk').
        exists (c :: s1), s2. rewrite last_or_cons. cbn. rewrite Hp, Hall.
        repeat split; [lia..|assumption].
    + destruct s as [|c s]; [discriminate|]. destruct (p c) eqn:Hp; [|discriminate].
      apply Nat.eqb_neq in Hlo.
      destruct (IH _ _ _ _ H) as (s1 & s2 & -> & Hall & Hlen & Hk').
      exists (c :: s1), s2. rewrite last_or_cons. cbn. rewrite Hp, Hall.
      repeat split; [lia..|assumption].
Qed.

Lemma rep_complete p : forall s1 hi lo prev s2 k,
  forallb p s1 = true -> lo <= length s1 <= hi ->
  k (last_or prev s1) s2 = true ->
  Regex.rep p lo hi prev (s1 ++ s2) k = true.
Proof.
  induction s1 as [|c s1 IH]; intros hi lo prev s2 k Hall Hlen Hk.
  - cbn in Hlen. assert (lo = 0) as -> by lia. cbn in Hk.
    destruct hi; cbn [Regex.rep app]; cbn; now rewrite Hk.
  - cbn in Hall, Hlen. apply andb_true_iff in Hall as [Hp Hall].
    destruct hi as [|hi]; [lia|]. cbn [Regex.rep app].
    rewrite last_or_cons in Hk.
    destruct (if (lo =? 0)%nat then k prev (c :: s1 ++ s2) else false); [reflexivity|].
    rewrite Hp. apply IH; [assumption|lia|assumption].
Qed.

(** Whatever a pattern accepts, the continuation accepts some rest of the
    text. *)
Lemma accepts_suffix r : forall prev s k,
  Regex.accepts r prev s k = true ->
  exists prev' s1 s2, s = s1 ++ s2 /\ k prev' s2 = true.
Proof.
  induction r as [p|r1 IH1 r2 IH2|r1 IH1|p lo hi|p|]; intros prev s k H; cbn [Regex.accepts] in H.
  - destruct s as [|c s]; [discriminate|]. destruct (p c); [|discriminate].
    now exists (Some c), [c], s.
  - destruct (IH1 _ _ _ H) as (p1 & s1 & s2 & -> & H2).
    destruct (IH2 _ _ _ H2) as (p2 & s3 & s4 & -> & H4).
    exists p2, (s1 ++ s3), s4. now rewrite app_assoc.
  - destruct (Regex.accepts r1 prev s k) eqn:H1.
    + now apply IH1 in H1.
    + now exists prev, [], s.
  - destruct (rep_sound _ _ _ _ _ _ H) as (s1 & s2 & -> & _ & _ & Hk). eauto.
  - destruct (rep_sound _ _ _ _ _ _ H) as (s1 & s2 & -> & _ & _ & Hk). eauto.
  - destruct (xorb _ _); [|discriminate]. now exists prev, [], s.
Qed.

(** An optional group can be skipped. *)
Lemma accepts_opt_skip r prev s k :
  k prev s = true -> Regex.accepts (Regex.Opt r) prev s k = true.
Proof. intros H. cbn [Regex.accepts]. rewrite H. now destruct (Regex.accepts r prev s k). Qed.

(** A search succeeds exactly when the pattern accepts at some position. *)
Lemma search_from_sound r : forall s prev,
  Regex.search_from r prev s = true ->
  exists pre t prev', s = pre ++ t /\ Regex.accepts r prev' t (fun _ _ => true) = true.
Proof.
  induction s as [|c s IH]; intros prev H; cbn [Regex.search_from] in H.
  - destruct (Regex.accepts r prev [] _) eqn:Ha; [|discriminate]. now exists [], [], prev.
  - destruct (Regex.accepts r prev (c :: s) _) eqn:Ha.
    + now exists [], (c :: s), prev.
    + destruct (IH _ H) as (pre & t & prev' & -> & Ht). now exists (c :: pre), t, prev'.
Qed.

Lemma search_from_complete r : forall pre prev t,
  (forall prev', Regex.accepts r prev' t (fun _ _ => true) = true) ->
  Regex.search_from r prev (pre ++ t) = true.
Proof.
  induction pre as [|c pre IH]; intros prev t H.
  - cbn [app]. destruct t; cbn [Regex.search_from]; now rewrite H.
  - cbn [app Regex.search_from].
    destruct (Regex.accepts r prev (c :: pre ++ t) _); [reflexivity|]. now apply IH.
Qed.

(** A lower-case letter is a word character. *)
Lemma lower_word c : Regex.lower c = true -> Regex.word_char c = true.
Proof. intros H. unfold Regex.word_char. now rewrite H. Qed.

(** After a non-empty run of a class, the character before is of the class. *)
Lemma last_or_forall p prev s :
  forallb p s = true -> s <> [] -> exists c, last_or prev s = Some c /\ p c = true.
Proof.
  intros Hall Hne. unfold last_or.
  destruct (last s) as [c|] eqn:Hl.
  - exists c. split; [reflexivity|].
    apply last_Some in Hl as [s' ->]. rewrite forallb_app in Hall.
    apply andb_true_iff in Hall as [_ Hc]. cbn in Hc. now rewrite andb_true_r in Hc.
  - apply last_None in Hl. contradiction.
Qed.

(** The core accepts exactly the texts that begin with its shape. *)
Lemma core_sound prev u :
  Regex.accepts url_core prev u (fun _ _ => true) = true ->
  exists host tld post,
    u = host ++ "."%char :: tld ++ post /\ core_shape host tld post.
Proof.
  intros H. unfold url_core in H. cbn [Regex.accepts] in H.
  destruct (rep_sound _ _ _ _ _ _ H) as (host & u2 & -> & Hhost & Hhl & H2).
  destruct u2 as [|c u3]; [discriminate|].
  destruct (Regex.just "." c) eqn:Hc; [|discriminate].
  apply Ascii.eqb_eq in Hc as <-.
  destruct (rep_sound _ _ _ _ _ _ H2) as (tld & post & -> & Htld & Htl & H3).
  destruct (last_or_forall Regex.lower (Some "."%char) tld Htld) as (l & Hl & Hlow).
  { intros ->. cbn in Htl. lia. }
  rewrite Hl in H3. cbn [Regex.is_word] in H3. rewrite (lower_word _ Hlow) in H3.
  destruct (Regex.is_word (head post)) eqn:Hw; [discriminate|].
  exists host, tld, post. repeat split; try assumption; lia.
Qed.

(** A starred class followed by nothing accepts any rest. *)
Lemma star_true p prev s : Regex.rep p 0 (length s) prev s (fun _ _ => true) = true.
Proof. destruct s; reflexivity. Qed.

Lemma core_complete prev host tld post :
  core_shape host tld post ->
  Regex.accepts url_core prev (host ++ "."%char :: tld ++ post) (fun _ _ => true) = true.
Proof.
  intros (Hhost & Hhl & Htld & Htl & Hw). unfold url_core. cbn [Regex.accepts].
  apply rep_complete; [assumption..|]. cbn [Regex.just]. rewrite Ascii.eqb_refl.
  apply rep_complete; [assumption..|].
  destruct (last_or_forall Regex.lower (Some "."%char) tld Htld) as (l & Hl & Hlow).
  { intros ->. cbn in Htl. lia. }
  rewrite Hl. cbn [Regex.is_word]. rewrite (lower_word _ Hlow), Hw. cbn [xorb].
  apply star_true.
Qed.

(** Matching a sequence. *)
Lemma accepts_seq r1 r2 prev s k :
  Regex.accepts (Regex.Seq r1 r2) prev s k
  = Regex.accepts r1 prev s (fun prev' s' => Regex.accepts r2 prev' s' k).
Proof. reflexivity. Qed.

(** The URL pattern is its core behind two optional groups. *)
Lemma url_pattern_shape :
  exists P1 P2,
    Regex.url_pattern
    = Regex.Seq (Regex.Opt P1) (Regex.Seq (Regex.Opt P2) url_core).
Proof. eexists _, _. reflexivity. Qed.

(** A match has the shape of [url_shape], and the shape gives a match. *)
Lemma url_match_shape (text : string) :
  Regex.matches Regex.url_pattern text = true -> url_shape text.
Proof.
  unfold Regex.matches, url_shape.
  intros H. destruct (search_from_sound _ _ _ H) as (pre & t & prev & Ht & Ha).
  destruct url_pattern_shape as (P1 & P2 & Hshape). rewrite Hshape in Ha.
  rewrite accepts_seq in Ha.
  destruct (accepts_suffix (Regex.Opt P1) prev t _ Ha) as (p1 & s1 & s2 & -> & H2).
  rewrite accepts_seq in H2.
  destruct (accepts_suffix (Regex.Opt P2) p1 s2 _ H2) as (p2 & s3 & s4 & -> & H4).
  destruct (core_sound _ _ H4)
    as (host & tld & post & -> & Hhost & Hhl & Htld & Htl & Hw).
  destruct (rev host) as [|b [|a h0]] eqn:Hrev.
  + apply (f_equal (@length _)) in Hrev. rewrite length_rev in Hrev. cbn in Hrev. lia.
  + apply (f_equal (@length _)) in Hrev. rewrite length_rev in Hrev. cbn in Hrev. lia.
  + assert (Hh : host = rev h0 ++ [a; b]).
    { rewrite <- (rev_involutive host), Hrev. cbn. now rewrite <- !app_assoc. }
    subst host. rewrite forallb_app in Hhost.
    apply andb_true_iff in Hhost as [_ Hab]. cbn in Hab.
    apply andb_true_iff in Hab as [Ha' Hb']. rewrite andb_true_r in Hb'.
    exists (pre ++ s1 ++ s3 ++ rev h0), a, b, tld, post.
    split; [|repeat split; assumption || lia].
    rewrite Ht. now rewrite <- !app_assoc.
Qed.

Lemma url_shape_match (text : string) :
  url_shape text -> Regex.matches Regex.url_pattern text = true.
Proof.
  unfold Regex.matches, url_shape.
  intros (pre & a & b & tld & post & -> & Ha & Hb & Htld & Htl & Hw).
  apply search_from_complete. intros prev.
  destruct url_pattern_shape as (P1 & P2 & ->).
  rewrite accepts_seq. apply accepts_opt_skip.
  rewrite accepts_seq. apply accepts_opt_skip.
  apply (core_complete prev [a; b] tld post).
  repeat split; try assumption; cbn; try lia. now rewrite Ha, Hb.
Qed.

(** A text without a dot does not match the URL pattern. *)
Lemma no_dot_no_match (text : string) :
  "."%char ∉ list_ascii_of_string text ->
  Regex.matches Regex.url_pattern text = false.
Proof.
  intros Hno. destruct (Regex.matches Regex.url_pattern text) eqn:Hm; [|reflexivity].
  apply url_match_shape in Hm as (pre & a & b & tld & post & Heq & _).
  exfalso. apply Hno. rewrite Heq.
  apply elem_of_app. right. do 2 apply list_elem_of_further. apply list_elem_of_here.
Qed.

(** What a public method hands to [request]. *)
Lemma perform_wire this c st b qb :
  options_store st !! requestOptions = Some b ->
  qs_store st !! qs b = Some qb ->
  sent_wire (perform this c st)
  = Some (wire_of (built this b (length (qs_store st)) c) (built_qs this qb c)).
Proof.
  intros Hb Hqb. rewrite (perform_at _ _ _ _ _ Hb Hqb).
  unfold sent_wire. now rewrite issued_by_sent.
Qed.

(** Attaching the proxy leaves the other fields. *)
Lemma url_with_proxy rd o : url (with_proxy rd o) = url o.
Proof. unfold with_proxy. now destruct (proxy rd). Qed.

Lemma method_with_proxy rd o : method (with_proxy rd o) = method o.
Proof. unfold with_proxy. now destruct (proxy rd). Qed.

Lemma proxy_with_proxy rd o :
  opt_proxy (with_proxy rd o)
  = match proxy rd with Some p => Some p | None => opt_proxy o end.
Proof. unfold with_proxy. now destruct (proxy rd). Qed.

(** The URL a call is sent to. *)
Lemma url_built this b q c : url (built this b q c) = (url b ++ endpoint c)%string.
Proof. unfold built. rewrite url_with_proxy. now destruct c. Qed.

(** The constructor, once the proxy descriptor has been accepted, for a
    version that converts to the text [v]. *)
Lemma constructor_at tok pd ver st rd v :
  wf st ->
  getProxyData {| token := tok; proxy := None |} pd = Normal rd ->
  to_string ver = Normal v ->
  exists st',
    constructor tok pd ver st = Normal ({| requestData := rd |}, st')
    /\ wf st'
    /\ outbox st' = outbox st
    /\ view st' requestOptions
       = (fun w => if truthy ver then with_url (versioned_url v) w else w)
           <$> view st requestOptions.
Proof.
  intros Hwf Hrd Hv. unfold constructor, lift, bindM. rewrite Hrd.
  destruct (truthy ver).
  - rewrite Hv.
    destruct (wf_lookup _ Hwf) as (b & qb & Hb & Hqb).
    unfold setAPIVersion. rewrite (update_options_at _ _ _ _ Hb). unfold ret.
    eexists. split; [reflexivity|].
    rewrite (written_options _ _ _ _ _ Hqb). split; [|split].
    + eapply wf_written; eauto.
    + reflexivity.
    + rewrite (view_written_same _ _ _ _ _ Hwf Hb) by reflexivity.
      rewrite (view_at _ _ _ _ Hb Hqb). reflexivity.
  - unfold ret. eexists. split; [reflexivity|]. split; [assumption|].
    split; [reflexivity|]. now destruct (view st requestOptions).
Qed.




(** The invariant holds of [sample_state]. *)
Lemma wf_sample_state : wf sample_state.
Proof. exact (proj1 (step_frame initial GetRequestOptions wf_initial I)). Qed.

(** ** The claims *)

(** C1, at the input where the code departs from it: [sendTextMessage]
    without a callback returns a new promise, and when the transport
    completes without error with a body that already is an object carrying
    [error], the promise is fulfilled with that body instead of being
    rejected with the error's message; the callback handler, given the same
    outcome, does report the error. *)
Theorem promise_fulfilled_with_error_body (JSON_parse : jsval -> completion jsval) :
  let run := sendTextMessage sample_client "42" "hi" None JUndefined initial in
  value_of run = Some (NewPromise 0)
  /\ (st' ← state_of run; issued_handler <$> outbox st' !! 0) = Some PromiseHandler
  /\ settled JSON_parse (NewPromise 0) JNull oauth_error_body
     = Fulfilled oauth_error_body
  /\ read oauth_error_body "error" = oauth_error
  /\ read oauth_error "message" = JStr "Invalid OAuth access token."
  /\ callback_handler (JFun "cb") JNull oauth_error_body
     = Normal (Invoke (JFun "cb") [oauth_error]).
Proof.
  repeat split; vm_compute; reflexivity.
Qed.

(** C2 as stated fails: when the response is empty and the transport was
    asked for JSON, it completes with no error and no body; reading
    [body.error] then throws and the callback is never invoked. *)
Lemma callback_handler_throws_without_body :
  callback_handler (JFun "cb") JNull JUndefined = Throw TypeError.
Proof. reflexivity. Qed.

(** C2, amended: [sendMessage] called with a function registers the
    forwarding handler for it; whenever a transport error occurred or the
    body is neither [undefined] nor [null], that handler invokes the callback
    once, with the transport error alone if it is truthy, otherwise with the
    body's [error] alone if that is truthy, otherwise with [null] and the
    body; a text body is handed over as the text it is. *)
Theorem callback_mode_invokes_callback (st : state) (options : loc)
    (rd : RequestData) (cb : jsval) (o : RequestOptions) (q : QueryString)
    (err body : jsval) :
  is_function cb = true ->
  options_store st !! options = Some o ->
  qs_store st !! qs o = Some q ->
  truthy err = true \/ nullish body = false ->
  sent_handler (sendMessage options rd cb st) = Some (CallbackHandler cb)
  /\ callback_handler cb err body
     = Normal (Invoke cb
                 (if truthy err then [err]
                  else if truthy (read body "error") then [read body "error"]
                  else [JNull; body]))
  /\ (forall s, truthy err = false ->
        callback_handler cb err (JStr s)
        = Normal (Invoke cb [JNull; JStr s])).
Proof.
  intros Hf Ho Hq Hdef. split; [|split].
  - rewrite (sendMessage_at _ _ _ _ _ _ Ho Hq).
    unfold sent_handler, issued_by. cbn [state_of mbind option_bind outbox].
    rewrite last_snoc. cbn. unfold handler_for. now rewrite Hf.
  - now apply callback_handler_spec.
  - intros s Herr. unfold callback_handler. now rewrite Herr.
Qed.

(** The statement above at a callback, an option object obtained from
    [getRequestOptions] and the platform's error report. *)
Lemma callback_mode_invokes_callback_witness :
  sent_handler (sendMessage 1 {| token := "PAGE_TOKEN"; proxy := None |}
                  (JFun "cb") sample_state)
  = Some (CallbackHandler (JFun "cb"))
  /\ callback_handler (JFun "cb") JNull oauth_error_body
     = Normal (Invoke (JFun "cb") [oauth_error]).
Proof.
  destruct (callback_mode_invokes_callback sample_state 1
              {| token := "PAGE_TOKEN"; proxy := None |} (JFun "cb")
              {| url := "https://graph.facebook.com/v3.1/"; qs := 1;
                 method := None; opt_proxy := None; json := None |}
              {| access_token := None; fields := None |}
              JNull oauth_error_body)
    as (H1 & H2 & _).
  - reflexivity.
  - reflexivity.
  - reflexivity.
  - right. reflexivity.
  - split; [exact H1 | exact H2].
Defined.

(** C3, at the input where the code departs from it: the descriptor
    [{hostname: "httpbin.org", port: 8080}] is accepted, and the proxy string
    stored for it is [httpbin.org:8080], which begins with neither
    [http://] nor [https://]. *)
Theorem proxy_without_scheme :
  let rd := {| token := "PAGE_TOKEN"; proxy := None |} in
  let d := JObj [("hostname", JStr "httpbin.org"); ("port", JNum "8080")] in
  carries_both d = true
  /\ getProxyData rd d
     = Normal {| token := "PAGE_TOKEN"; proxy := Some "httpbin.org:8080" |}
  /\ String.prefix "http://" "httpbin.org:8080" = false
  /\ String.prefix "https://" "httpbin.org:8080" = false.
Proof. repeat split; reflexivity. Qed.




(** C5: [getRequestOptions] returns a new object holding what the base
    options hold; it shares nothing with the base options nor with any
    option object that existed before the call (every earlier result among
    them): any assignments through the result leave those as they were, and
    any assignments through one of those leave the result as it was.  The
    same holds between the results of two successive calls.  (The copy is
    taken through JSON, so a body stored in the base options would come out
    as its JSON reading; the base options hold none unless one is assigned
    to them.) *)
Theorem getRequestOptions_independent (st : state) :
  wf st ->
  exists r1 st1 r2 st2,
    getRequestOptions st = Normal (r1, st1)
    /\ getRequestOptions st1 = Normal (r2, st2)
    /\ r1 <> requestOptions /\ r2 <> requestOptions /\ r1 <> r2
    /\ view st1 r1 = json_view <$> view st requestOptions
    /\ view st2 r2 = json_view <$> view st requestOptions
    /\ (wire_json <$> view st requestOptions = Some None ->
        view st1 r1 = view st requestOptions
        /\ view st2 r2 = view st requestOptions)
    /\ (forall l, is_Some (options_store st !! l) ->
          l <> r1
          /\ forall ms,
               (exists st', mutate_all r1 ms st1 = Normal (tt, st')
                            /\ view st' l = view st l)
               /\ (exists st', mutate_all l ms st1 = Normal (tt, st')
                               /\ view st' r1 = view st1 r1))
    /\ (forall ms,
          (exists st', mutate_all r1 ms st2 = Normal (tt, st')
                       /\ view st' r2 = view st2 r2
                       /\ view st' requestOptions = view st requestOptions)
          /\ (exists st', mutate_all r2 ms st2 = Normal (tt, st')
                          /\ view st' r1 = view st1 r1
                          /\ view st' requestOptions = view st requestOptions)).
Proof.
  intros Hwf.
  destruct (getRequestOptions_fresh st Hwf)
    as (r1 & st1 & Hrun1 & Hwf1 & Hnew1 & Hcopy1 & Hsep1).
  destruct (getRequestOptions_fresh st1 Hwf1)
    as (r2 & st2 & Hrun2 & Hwf2 & Hnew2 & Hcopy2 & Hsep2).
  assert (Hbase : is_Some (options_store st !! requestOptions)) by apply Hwf.
  assert (Hbase1 : is_Some (options_store st1 !! requestOptions)) by apply Hwf1.
  assert (Hr1 : is_Some (options_store st1 !! r1)).
  { apply view_is_Some. rewrite Hcopy1.
    destruct (view_base_is_Some st Hwf) as [w ->]. eexists; reflexivity. }
  destruct (Hsep1 _ Hbase) as (Hne1 & Hv1 & _).
  destruct (Hsep2 _ Hbase1) as (Hne2 & Hv2 & Hmut2b).
  destruct (Hsep2 _ Hr1) as (Hne12 & Hv12 & Hmut2).
  exists r1, st1, r2, st2.
  split; [assumption|]. split; [assumption|].
  split; [congruence|]. split; [congruence|]. split; [congruence|].
  split; [assumption|]. split; [now rewrite Hcopy2, Hv1|].
  split.
  { intros Hnone. rewrite Hcopy2, Hv1, Hcopy1.
    destruct (view st requestOptions) as [[u qv m px j]|]; [|discriminate].
    injection Hnone as ->. split; reflexivity. }
  split.
  - intros l Hl. destruct (Hsep1 l Hl) as (Hne & Hv & Hmut).
    split; [assumption|]. intros ms. destruct (Hmut ms) as [(s1 & Hs1 & Hk1) (s2 & Hs2 & Hk2)].
    split; [exists s1|exists s2]; split; try assumption. congruence.
  - intros ms.
    destruct (Hmut2 ms) as [(s2 & Hs2 & Hk2) (s1 & Hs1 & Hk1)].
    destruct (Hmut2b ms) as [(s2' & Hs2' & Hk2') _].
    split.
    + exists s1. split; [assumption|]. split; [assumption|].
      destruct (Hr1) as [x Hx].
      assert (Hx2 : is_Some (options_store st2 !! r1)).
      { apply view_is_Some. rewrite Hv12, Hcopy1.
        destruct (view_base_is_Some st Hwf) as [w ->]. eexists; reflexivity. }
      destruct Hx2 as [x2 Hx2].
      destruct (mutate_all_frame ms st2 r1 x2 Hwf2 Hx2) as (s & Hs & _ & _ & Hframe).
      rewrite Hs in Hs1. injection Hs1 as <-.
      destruct (wf_base _ Hwf2) as [b2 Hb2].
      destruct (Hframe requestOptions b2 Hb2 ltac:(congruence)
                  ltac:(intros E; eapply (wf_private _ Hwf2 r1 x2 b2); eauto))
        as [Hvb _].
      rewrite Hvb, Hv2, Hv1. reflexivity.
    + exists s2. split; [assumption|]. split; [congruence|].
      rewrite Hs2' in Hs2. injection Hs2 as <-. rewrite Hk2', Hv2, Hv1. reflexivity.
Qed.

(** The statement above from the initial state. *)
Lemma getRequestOptions_independent_witness :
  exists r1 st1 r2 st2,
    getRequestOptions initial = Normal (r1, st1)
    /\ getRequestOptions st1 = Normal (r2, st2)
    /\ r1 <> r2
    /\ view st2 r2 = json_view <$> view initial requestOptions.
Proof.
  destruct (getRequestOptions_independent initial wf_initial)
    as (r1 & st1 & r2 & st2 & H1 & H2 & _ & _ & Hne & _ & Hcopy & _ & _).
  exists r1, st1, r2, st2. repeat split; assumption.
Defined.

(** C6: each of the four media methods sends, as [message.attachment], the
    type tag of the method with the payload [{is_reusable: true, url: s}]
    when [s] matches the URL pattern and [{attachment_id: s}] when it does
    not. *)
Theorem media_payload_url_or_id (st : state) (this : FacebookMessagingAPIClient)
    (id s : string) (t : option MessageTag) (cb : jsval) :
  wf st ->
  let payload :=
    if Regex.matches Regex.url_pattern s
    then JObj [("is_reusable", JBool true); ("url", JStr s)]
    else JObj [("attachment_id", JStr s)] in
  let message type :=
    JObj [("attachment", JObj [("type", type_tag type); ("payload", payload)])] in
  sent_json (sendImageMessage this id s t cb st)
  = Some (display_body id (message IMAGE) t)
  /\ sent_json (sendAudioMessage this id s t cb st)
     = Some (display_body id (message AUDIO) t)
  /\ sent_json (sendVideoMessage this id s t cb st)
     = Some (display_body id (message VIDEO) t)
  /\ sent_json (sendFileMessage this id s t cb st)
     = Some (display_body id (message FILE) t).
Proof.
  intros Hwf payload message.
  destruct (perform_sends this (SendImageMessage id s t cb) st Hwf) as (b1 & _ & _ & H1 & _).
  destruct (perform_sends this (SendAudioMessage id s t cb) st Hwf) as (b2 & _ & _ & H2 & _).
  destruct (perform_sends this (SendVideoMessage id s t cb) st Hwf) as (b3 & _ & _ & H3 & _).
  destruct (perform_sends this (SendFileMessage id s t cb) st Hwf) as (b4 & _ & _ & H4 & _).
  repeat split; assumption.
Qed.

(** The statement above from the initial state, at a URL and at an
    attachment id. *)
Lemma media_payload_url_or_id_witness :
  sent_json (sendImageMessage sample_client "42" "https://example.com/cat.png"
               None JUndefined initial)
  = Some (JObj [("recipient", JObj [("id", JStr "42")]);
                ("message",
                 JObj [("attachment",
                        JObj [("type", JStr "image");
                              ("payload",
                               JObj [("is_reusable", JBool true);
                                     ("url", JStr "https://example.com/cat.png")])])])])
  /\ sent_json (sendFileMessage sample_client "42" "1745504518999123"
                  None JUndefined initial)
     = Some (JObj [("recipient", JObj [("id", JStr "42")]);
                   ("message",
                    JObj [("attachment",
                           JObj [("type", JStr "file");
                                 ("payload",
                                  JObj [("attachment_id", JStr "1745504518999123")])])])]).
Proof.
  split.
  - exact (proj1 (media_payload_url_or_id initial sample_client "42"
                    "https://example.com/cat.png" None JUndefined wf_initial)).
  - exact (proj2 (proj2 (proj2
             (media_payload_url_or_id initial sample_client "42"
                "1745504518999123" None JUndefined wf_initial)))).
Defined.

(** C7, at the input where the code departs from it: [toggleTyping(id, cb)]
    with an [async] function [cb].  For [sendMessage], which asks for
    [typeof cb], [cb] is a function and would be registered; [toggleTyping]
    asks for the class string, does not recognise [cb], and takes it for a
    truthy toggle: it sends [typing_on], registers no callback and returns a
    new promise.  With an ordinary function in the same place it sends
    [typing_off] and registers the function. *)
Theorem toggleTyping_async_function :
  let cb := JFunOf AsyncFunction "async (err, body) => {}" in
  let run := toggleTyping sample_client "42" [cb] initial in
  let plain := JFun "(err, body) => {}" in
  is_function cb = true
  /\ sent_json run
     = Some (JObj [("recipient", JObj [("id", JStr "42")]);
                   ("sender_action", JStr "typing_on")])
  /\ sent_handler run = Some PromiseHandler
  /\ value_of run = Some (NewPromise 0)
  /\ sent_handler (sendMessage 1 (requestData sample_client) cb sample_state)
     = Some (CallbackHandler cb)
  /\ sent_json (toggleTyping sample_client "42" [plain] initial)
     = Some (JObj [("recipient", JObj [("id", JStr "42")]);
                   ("sender_action", JStr "typing_off")])
  /\ sent_handler (toggleTyping sample_client "42" [plain] initial)
     = Some (CallbackHandler plain).
Proof. repeat split; vm_compute; reflexivity. Qed.

(** C8 as stated fails: [markSeen] has the parameters [(id, cb)] only, and
    no call of it, in any state, sends a payload with a [messaging_type]
    field. *)
Lemma markSeen_sends_no_tag :
  ~ exists this id cb st props v,
      sent_json (markSeen this id cb st) = Some (JObj props)
      /\ lookup_prop "messaging_type" props = Some v.
Proof.
  intros (this & id & cb & st & props & v & Hsent & Hv).
  destruct (options_store st !! requestOptions) as [b|] eqn:Hb.
  - destruct (qs_store st !! qs b) as [qb|] eqn:Hqb.
    + unfold markSeen in Hsent. rewrite (sendAction_at _ _ _ _ _ _ _ Hb Hqb) in Hsent.
      unfold sent_json in Hsent. rewrite issued_by_sent in Hsent.
      cbn [mbind option_bind issued_wire wire_of wire_json] in Hsent.
      rewrite json_with_proxy in Hsent. cbn [json] in Hsent.
      injection Hsent as <-. discriminate.
    + rewrite markSeen_needs_base in Hsent; [discriminate|].
      intros b' qb' Hb' Hq'. congruence.
  - rewrite markSeen_needs_base in Hsent; [discriminate|].
    intros b' qb' Hb' Hq'. congruence.
Qed.

(** C8, amended: the eight message-sending methods take an optional
    messaging tag, and a tag that is supplied is sent as the payload fields
    [messaging_type] and [tag]; [markSeen], [toggleTyping] and
    [getUserProfile] take none ([tag_of]), and without a tag the payload has
    neither field.  Every public method has an optional callback parameter
    [cb]; [callback_of] is what the method passes on to [sendMessage] as
    callback.  When that is no function, as when no callback is given, the
    method returns a new promise, settled by the handler of the request it
    has issued; when it is one, that function is what the handler forwards
    to. *)
Theorem methods_tag_and_callback (st : state) (this : FacebookMessagingAPIClient)
    (c : call) :
  wf st ->
  (forall t, tag_of c = Some t ->
     exists props,
       sent_json (perform this c st) = Some (JObj props)
       /\ lookup_prop "messaging_type" props = Some (JStr (messaging_type t))
       /\ lookup_prop "tag" props = Some (JStr (tag t)))
  /\ (tag_of c = None ->
      wire_json <$> view st requestOptions = Some None ->
      forall props,
        sent_json (perform this c st) = Some (JObj props) ->
        lookup_prop "messaging_type" props = None
        /\ lookup_prop "tag" props = None)
  /\ (is_function (callback_of c) = false ->
      value_of (perform this c st) = Some (NewPromise (length (outbox st)))
      /\ sent_handler (perform this c st) = Some PromiseHandler)
  /\ (is_function (callback_of c) = true ->
      sent_handler (perform this c st) = Some (CallbackHandler (callback_of c))).
Proof.
  intros Hwf.
  destruct (perform_sends this c st Hwf) as (b & Hb & Hval & Hjson & Hh).
  split; [|split; [|split]].
  - intros t Ht. rewrite Hjson.
    destruct c; cbn [tag_of] in Ht; try discriminate; subst;
      cbn [body_of]; unfold display_body; eexists; (split; [reflexivity|]);
      split; reflexivity.
  - intros Ht Hplain props. rewrite Hjson.
    assert (Hjb : json b = None).
    { destruct (wf_lookup_qs _ _ _ Hwf Hb) as [qb Hqb].
      rewrite (view_at _ _ _ _ Hb Hqb) in Hplain. now injection Hplain. }
    destruct c; cbn [tag_of] in Ht; subst; cbn [body_of]; rewrite ?Hjb;
      intros [= <-]; split; reflexivity.
  - intros Hf. rewrite Hval, Hh. unfold returned_for, handler_for. rewrite Hf.
    split; reflexivity.
  - intros Hf. rewrite Hh. unfold handler_for. now rewrite Hf.
Qed.

(** The statement above at a tagged text message without callback. *)
Lemma methods_tag_and_callback_witness :
  (exists props,
      sent_json (perform sample_client
                   (SendTextMessage "42" "hi" (Some sample_tag) JUndefined) initial)
      = Some (JObj props)
      /\ lookup_prop "messaging_type" props = Some (JStr "MESSAGE_TAG")
      /\ lookup_prop "tag" props = Some (JStr "ACCOUNT_UPDATE"))
  /\ value_of (perform sample_client
                 (SendTextMessage "42" "hi" (Some sample_tag) JUndefined) initial)
     = Some (NewPromise 0).
Proof.
  destruct (methods_tag_and_callback initial sample_client
              (SendTextMessage "42" "hi" (Some sample_tag) JUndefined) wf_initial)
    as (Htag & _ & Hpromise & _).
  split.
  - exact (Htag sample_tag eq_refl).
  - exact (proj1 (Hpromise eq_refl)).
Defined.

(** C9: whatever sequence of constructor calls, client-method calls,
    [sendMessage] calls on option objects obtained from [getRequestOptions]
    or written out by the caller, assignments to such objects,
    [getRequestOptions] and [setAPIVersion] calls a program makes, the base options end up as they were except for
    [url], which is the one of the last version set; with no version set
    they are unchanged altogether; and starting from the initial state the
    stored [access_token] stays unset. *)
Theorem base_options_frame (st : state) (ops : list operation) :
  wf st ->
  Forall keeps_private ops ->
  view (run ops st) requestOptions
  = (fun w => with_url (fold_left versioned ops (wire_url w)) w)
      <$> view st requestOptions
  /\ (Forall (fun op => version_set op = None) ops ->
      view (run ops st) requestOptions = view st requestOptions)
  /\ (access_token ∘ wire_qs) <$> view (run ops initial) requestOptions = Some None.
Proof.
  intros Hwf Hpriv.
  destruct (run_frame ops st Hwf Hpriv) as [_ Hv].
  destruct (run_frame ops initial wf_initial Hpriv) as [_ Hi].
  split; [exact Hv|]. split.
  - intros Hnone. rewrite Hv.
    destruct (view st requestOptions) as [w|]; [|reflexivity]. cbn.
    now rewrite (versioned_none ops Hnone), with_url_same.
  - rewrite Hi. reflexivity.
Qed.

(** The statement above at [sample_program]: only the version has changed
    the base. *)
Lemma base_options_frame_witness :
  view (run sample_program initial) requestOptions
  = Some {| wire_url := "https://graph.facebook.com/v2.11/";
            wire_qs := {| access_token := None; fields := None |};
            wire_method := None; wire_proxy := None; wire_json := None |}.
Proof.
  refine (proj1 (base_options_frame initial sample_program wf_initial _)).
  repeat constructor; discriminate.
Defined.

(** C10: called with a function as callback, [sendMessage] returns
    [Promise.resolve()]: a promise already fulfilled with [undefined],
    whatever the transport later reports. *)
Theorem callback_mode_returns_resolved (st : state) (options : loc)
    (rd : RequestData) (cb : jsval) (o : RequestOptions) (q : QueryString) :
  is_function cb = true ->
  options_store st !! options = Some o ->
  qs_store st !! qs o = Some q ->
  value_of (sendMessage options rd cb st) = Some (PromiseResolve JUndefined)
  /\ forall r, value_of (sendMessage options rd cb st) = Some r ->
       forall JSON_parse err body, settled JSON_parse r err body = Fulfilled JUndefined.
Proof.
  intros Hf Ho Hq. rewrite (sendMessage_at _ _ _ _ _ _ Ho Hq).
  unfold returned_for. rewrite Hf. cbn [value_of]. split; [reflexivity|].
  intros r [= <-] JSON_parse err body. reflexivity.
Qed.

(** The statement above at a callback and an option object obtained from
    [getRequestOptions]. *)
Lemma callback_mode_returns_resolved_witness :
  value_of (sendMessage 1 {| token := "PAGE_TOKEN"; proxy := None |}
              (JFun "cb") sample_state)
  = Some (PromiseResolve JUndefined).
Proof.
  apply (callback_mode_returns_resolved sample_state 1
           {| token := "PAGE_TOKEN"; proxy := None |} (JFun "cb")
           {| url := "https://graph.facebook.com/v3.1/"; qs := 1;
              method := None; opt_proxy := None; json := None |}
           {| access_token := None; fields := None |});
    reflexivity.
Defined.

(** ** Further properties *)

(** X1: a text matches the URL pattern exactly when somewhere in it two
    characters of the host class are followed by a dot and by two to six
    lower-case letters after which no word character comes. *)
Theorem url_pattern_matches_iff (text : string) :
  Regex.matches Regex.url_pattern text = true
  <-> exists pre a b tld post,
        list_ascii_of_string text = pre ++ a :: b :: "."%char :: tld ++ post
        /\ Regex.host_class a = true /\ Regex.host_class b = true
        /\ forallb Regex.lower tld = true /\ 2 <= length tld <= 6
        /\ Regex.is_word (head post) = false.
Proof.
  split; [apply url_match_shape | apply url_shape_match].
Qed.

(** X2: a text without a dot (a numeric attachment id, say) is sent as
    [attachment_id] by each of the four media methods. *)
Theorem media_id_without_dot (st : state) (this : FacebookMessagingAPIClient)
    (id s : string) (t : option MessageTag) (cb : jsval) :
  wf st ->
  "."%char ∉ list_ascii_of_string s ->
  let message type :=
    JObj [("attachment",
           JObj [("type", type_tag type);
                 ("payload", JObj [("attachment_id", JStr s)])])] in
  sent_json (sendImageMessage this id s t cb st) = Some (display_body id (message IMAGE) t)
  /\ sent_json (sendAudioMessage this id s t cb st) = Some (display_body id (message AUDIO) t)
  /\ sent_json (sendVideoMessage this id s t cb st) = Some (display_body id (message VIDEO) t)
  /\ sent_json (sendFileMessage this id s t cb st) = Some (display_body id (message FILE) t).
Proof.
  intros Hwf.
  intros Hno message.
  pose proof (no_dot_no_match s Hno) as Hm.
  destruct (perform_sends this (SendImageMessage id s t cb) st Hwf) as (b1 & _ & _ & H1 & _).
  destruct (perform_sends this (SendAudioMessage id s t cb) st Hwf) as (b2 & _ & _ & H2 & _).
  destruct (perform_sends this (SendVideoMessage id s t cb) st Hwf) as (b3 & _ & _ & H3 & _).
  destruct (perform_sends this (SendFileMessage id s t cb) st Hwf) as (b4 & _ & _ & H4 & _).
  cbn [perform body_of] in H1, H2, H3, H4. unfold media_payload in *.
  rewrite Hm in H1, H2, H3, H4. repeat split; assumption.
Qed.

(** The statement above from the initial state, for a numeric id. *)
Lemma media_id_without_dot_witness :
  sent_json (sendImageMessage sample_client "42" "1745504518999123" None JUndefined initial)
  = Some (JObj [("recipient", JObj [("id", JStr "42")]);
                ("message",
                 JObj [("attachment",
                        JObj [("type", JStr "image");
                              ("payload",
                               JObj [("attachment_id", JStr "1745504518999123")])])])]).
Proof.
  refine (proj1 (media_id_without_dot initial sample_client "42"
                   "1745504518999123" None JUndefined wf_initial _)).
  rewrite list_elem_of_In. cbn. intuition discriminate.
Defined.

(** X3: [getUserProfile] issues a GET to the base URL followed by the id,
    with the client's token, no body of its own, and as [fields] the
    comma-joined names it was given, or [first_name] when it was given no
    array; an empty array gives the empty text, not the default. *)
Theorem getUserProfile_request (st : state) (this : FacebookMessagingAPIClient)
    (id : string) (fieldsArray : option (list string)) (cb : jsval) :
  wf st ->
  exists w r,
    view st requestOptions = Some w
    /\ sent_wire (getUserProfile this id fieldsArray cb st) = Some r
    /\ wire_url r = (wire_url w ++ id)%string
    /\ wire_method r = Some "GET"
    /\ access_token (wire_qs r) = Some (token (requestData this))
    /\ wire_json r = wire_json w ≫= to_json
    /\ (fieldsArray = None -> fields (wire_qs r) = Some "first_name")
    /\ (forall names, fieldsArray = Some names ->
          fields (wire_qs r) = Some (join_strings "," names))
    /\ (fieldsArray = Some [] -> fields (wire_qs r) = Some "").
Proof.
  intros Hwf.
  destruct (wf_lookup _ Hwf) as (b & qb & Hb & Hqb).
  eexists _, _. split; [apply (view_at _ _ _ _ Hb Hqb)|]. split.
  { apply (perform_wire this (GetUserProfile id fieldsArray cb) st b qb Hb Hqb). }
  unfold built, built_qs.
  cbn [wire_of wire_url wire_method wire_qs wire_json access_token fields
       set_access_token set_fields].
  rewrite url_with_proxy, method_with_proxy, json_with_proxy. cbn [url method json body_of].
  repeat split; now intros; subst.
Qed.

(** The statement above from the initial state, for two field names. *)
Lemma getUserProfile_request_witness :
  exists w r,
    view initial requestOptions = Some w
    /\ sent_wire (getUserProfile sample_client "42"
                    (Some ["first_name"; "last_name"]) JUndefined initial)
       = Some r
    /\ wire_url r = "https://graph.facebook.com/v3.1/42"
    /\ wire_method r = Some "GET"
    /\ fields (wire_qs r) = Some "first_name,last_name".
Proof.
  destruct (getUserProfile_request initial sample_client "42"
              (Some ["first_name"; "last_name"]) JUndefined wf_initial)
    as (w & r & Hw & Hr & Hurl & Hm & _ & _ & _ & Hnames & _).
  exists w, r. split; [exact Hw|]. split; [exact Hr|].
  split; [|split; [exact Hm | exact (Hnames ["first_name"; "last_name"] eq_refl)]].
  rewrite Hurl. cbv in Hw. injection Hw as <-. reflexivity.
Defined.

(** X4: a quick-reply message carries the replies beside [text] when its
    second argument is a string and beside [attachment] otherwise. *)
Theorem sendQuickReplyMessage_payload (st : state) (this : FacebookMessagingAPIClient)
    (id : string) (x replies : jsval)
    (t : option MessageTag) (cb : jsval) :
  wf st ->
  sent_json (sendQuickReplyMessage this id x replies t cb st)
  = Some (display_body id
            (match x with
             | JStr _ => JObj [("text", x); ("quick_replies", replies)]
             | _ => JObj [("attachment", x); ("quick_replies", replies)]
             end) t).
Proof.
  intros Hwf.
  destruct (perform_sends this (SendQuickReplyMessage id x replies t cb) st Hwf)
    as (b & _ & _ & H & _).
  cbn [perform] in H. rewrite H. cbn [body_of]. now destruct x.
Qed.

(** The statement above from the initial state, for a text. *)
Lemma sendQuickReplyMessage_payload_witness :
  sent_json (sendQuickReplyMessage sample_client "42" (JStr "hi")
               (JArr [JObj [("content_type", JStr "location")]]) None JUndefined initial)
  = Some (JObj [("recipient", JObj [("id", JStr "42")]);
                ("message",
                 JObj [("text", JStr "hi");
                       ("quick_replies",
                        JArr [JObj [("content_type", JStr "location")]])])]).
Proof.
  exact (sendQuickReplyMessage_payload initial sample_client "42" (JStr "hi")
           (JArr [JObj [("content_type", JStr "location")]]) None JUndefined wf_initial).
Defined.

(** X5: the bodies of the remaining sending methods: a text message, a
    button template, a template handed in, and the read receipt. *)
Theorem plain_payloads (st : state) (this : FacebookMessagingAPIClient)
    (id text : string) (buttons template : jsval)
    (t : option MessageTag) (cb : jsval) :
  wf st ->
  sent_json (sendTextMessage this id text t cb st)
  = Some (display_body id (JObj [("text", JStr text)]) t)
  /\ sent_json (sendButtonsMessage this id text buttons t cb st)
     = Some (display_body id
               (JObj [("attachment",
                       JObj [("type", type_tag TEMPLATE);
                             ("payload",
                              JObj [("text", JStr text); ("buttons", buttons);
                                    ("template_type", JStr "button")])])]) t)
  /\ sent_json (sendTemplateMessage this id template t cb st)
     = Some (display_body id
               (JObj [("attachment",
                       JObj [("type", type_tag TEMPLATE); ("payload", template)])]) t)
  /\ sent_json (markSeen this id cb st)
     = Some (JObj [("recipient", JObj [("id", JStr id)]);
                   ("sender_action", JStr "mark_seen")]).
Proof.
  intros Hwf.
  destruct (perform_sends this (SendTextMessage id text t cb) st Hwf) as (b1 & _ & _ & H1 & _).
  destruct (perform_sends this (SendButtonsMessage id text buttons t cb) st Hwf)
    as (b2 & _ & _ & H2 & _).
  destruct (perform_sends this (SendTemplateMessage id template t cb) st Hwf)
    as (b3 & _ & _ & H3 & _).
  destruct (perform_sends this (MarkSeen id cb) st Hwf) as (b4 & _ & _ & H4 & _).
  repeat split; assumption.
Qed.

(** The statement above from the initial state. *)
Lemma plain_payloads_witness :
  sent_json (sendTextMessage sample_client "42" "hi" None JUndefined initial)
  = Some (JObj [("recipient", JObj [("id", JStr "42")]);
                ("message", JObj [("text", JStr "hi")])]).
Proof.
  exact (proj1 (plain_payloads initial sample_client "42" "hi"
                  (JArr []) (JObj []) None JUndefined wf_initial)).
Defined.

(** X6: every sending method POSTs to the base URL followed by
    [me/messages], with the recipient's id first in the body; every method
    sends the token of its own client, and the proxy of its client when that
    has one. *)
Theorem requests_addressed_and_signed (st : state) (this : FacebookMessagingAPIClient)
    (c : call) :
  wf st ->
  exists w r,
    view st requestOptions = Some w
    /\ sent_wire (perform this c st) = Some r
    /\ access_token (wire_qs r) = Some (token (requestData this))
    /\ wire_proxy r = match proxy (requestData this) with
                      | Some p => Some p
                      | None => wire_proxy w
                      end
    /\ (is_profile c = false ->
        wire_url r = (wire_url w ++ "me/messages")%string
        /\ wire_method r = Some "POST"
        /\ fields (wire_qs r) = fields (wire_qs w)
        /\ exists rest,
             wire_json r
             = Some (JObj (("recipient", JObj [("id", JStr (id_of c))]) :: rest))).
Proof.
  intros Hwf.
  destruct (wf_lookup _ Hwf) as (b & qb & Hb & Hqb).
  eexists _, _. split; [apply (view_at _ _ _ _ Hb Hqb)|]. split.
  { apply (perform_wire this c st b qb Hb Hqb). }
  cbn [wire_of wire_url wire_method wire_qs wire_json wire_proxy].
  split; [now destruct c|]. split.
  { unfold built. rewrite proxy_with_proxy. now destruct c. }
  intros Hc. unfold built, built_qs.
  rewrite url_with_proxy, method_with_proxy, json_with_proxy.
  destruct c; try discriminate; cbn [url method json fields set_access_token id_of];
    (split; [reflexivity|]); (split; [reflexivity|]); (split; [reflexivity|]);
    cbn [body_of]; unfold display_body, action_body, recipient; eexists; reflexivity.
Qed.

(** The statement above from the initial state, for a read receipt. *)
Lemma requests_addressed_and_signed_witness :
  exists w r,
    view initial requestOptions = Some w
    /\ sent_wire (perform sample_client (MarkSeen "42" JUndefined) initial) = Some r
    /\ access_token (wire_qs r) = Some "PAGE_TOKEN".
Proof.
  destruct (requests_addressed_and_signed initial sample_client
              (MarkSeen "42" JUndefined) wf_initial)
    as (w & r & Hw & Hr & Ht & _).
  exists w, r. repeat split; assumption.
Defined.

(** X7: a call of a public method succeeds, logs exactly one call of
    [request], allocates exactly one option object, and leaves every option
    object and every logged call that existed as it was. *)
Theorem method_issues_one_request (st : state) (this : FacebookMessagingAPIClient)
    (c : call) :
  wf st ->
  exists r st' i,
    perform this c st = Normal (r, st')
    /\ wf st'
    /\ outbox st' = outbox st ++ [i]
    /\ issued_options i = length (options_store st)
    /\ length (options_store st') = S (length (options_store st))
    /\ forall l, is_Some (options_store st !! l) -> view st' l = view st l.
Proof.
  intros Hwf.
  destruct (wf_lookup _ Hwf) as (b & qb & Hb & Hqb).
  eexists _, _, _. split; [apply (perform_at _ _ _ _ _ Hb Hqb)|].
  rewrite sent_alloc. split.
  { apply wf_log, wf_alloc; [assumption|apply qs_built]. }
  split; [reflexivity|]. split; [reflexivity|]. split.
  { cbn [log alloc options_store]. rewrite length_app. cbn. lia. }
  intros l Hl. rewrite view_log. now apply view_alloc.
Qed.

(** The statement above from the initial state, for a read receipt. *)
Lemma method_issues_one_request_witness :
  exists r st' i,
    perform sample_client (MarkSeen "42" JUndefined) initial = Normal (r, st')
    /\ outbox st' = outbox initial ++ [i]
    /\ length (options_store st') = 2.
Proof.
  destruct (method_issues_one_request initial sample_client
              (MarkSeen "42" JUndefined) wf_initial)
    as (r & st' & i & Hrun & _ & Hout & _ & Hlen & _).
  exists r, st', i. repeat split; assumption.
Defined.

(** X8: how [toggleTyping] reads its arguments.  With exactly three, the
    second decides by its truth value (a function there turns typing on) and
    the third is the callback.  With one, typing is turned off and a promise
    returned.  With four or more, the third is not used as callback: unless
    the second is a function, the call returns a new promise and registers
    no callback. *)
Theorem toggleTyping_arguments (st : state) (this : FacebookMessagingAPIClient)
    (id : string) :
  wf st ->
  (forall toggle cb,
      sent_json (toggleTyping this id [toggle; cb] st)
      = Some (JObj [("recipient", JObj [("id", JStr id)]);
                    ("sender_action",
                     JStr (if truthy toggle then "typing_on" else "typing_off"))])
      /\ sent_handler (toggleTyping this id [toggle; cb] st)
         = Some (if is_function cb then CallbackHandler cb else PromiseHandler))
  /\ (sent_json (toggleTyping this id [] st)
      = Some (JObj [("recipient", JObj [("id", JStr id)]);
                    ("sender_action", JStr "typing_off")])
      /\ value_of (toggleTyping this id [] st) = Some (NewPromise (length (outbox st))))
  /\ (forall toggle cb extra more,
        is_function toggle = false ->
        sent_handler (toggleTyping this id (toggle :: cb :: extra :: more) st)
        = Some PromiseHandler
        /\ value_of (toggleTyping this id (toggle :: cb :: extra :: more) st)
           = Some (NewPromise (length (outbox st)))
        /\ sent_json (toggleTyping this id (toggle :: cb :: extra :: more) st)
           = Some (JObj [("recipient", JObj [("id", JStr id)]);
                         ("sender_action",
                          JStr (if truthy toggle then "typing_on" else "typing_off"))])).
Proof.
  intros Hwf.
  split; [|split].
  - intros toggle cb.
    destruct (perform_sends this (ToggleTyping id [toggle; cb]) st Hwf)
      as (b & _ & _ & Hj & Hh).
    cbn [perform] in Hj, Hh. rewrite Hj, Hh. cbn [body_of callback_of].
    unfold toggle_of, handler_for. cbn. split; [|reflexivity].
    now destruct (truthy toggle).
  - destruct (perform_sends this (ToggleTyping id []) st Hwf) as (b & _ & Hv & Hj & _).
    cbn [perform] in Hj, Hv. rewrite Hj, Hv. split; reflexivity.
  - intros toggle cb extra more Hf.
    destruct (perform_sends this (ToggleTyping id (toggle :: cb :: extra :: more)) st Hwf)
      as (b & _ & Hv & Hj & Hh).
    cbn [perform] in Hj, Hv, Hh. rewrite Hj, Hv, Hh. cbn [body_of callback_of].
    assert (Hp : is_plain_function toggle = false).
    { destruct (is_plain_function toggle) eqn:Hp; [|reflexivity].
      apply plain_function_is_function in Hp. congruence. }
    unfold toggle_of, handler_for, returned_for. cbn [length nth Nat.eqb].
    rewrite Hp. cbn. repeat split; try now destruct (truthy toggle).
Qed.

(** The statement above from the initial state: a function as second of
    three arguments turns typing on. *)
Lemma toggleTyping_arguments_witness :
  sent_json (toggleTyping sample_client "42" [JFun "f"; JFun "cb"] initial)
  = Some (JObj [("recipient", JObj [("id", JStr "42")]);
                ("sender_action", JStr "typing_on")])
  /\ sent_handler (toggleTyping sample_client "42" [JFun "f"; JFun "cb"] initial)
     = Some (CallbackHandler (JFun "cb")).
Proof.
  exact (proj1 (toggleTyping_arguments initial sample_client "42" wf_initial)
           (JFun "f") (JFun "cb")).
Defined.



(** X10: the version is shared by all clients and the last one set wins:
    after a client is made, with whatever proxy descriptor [getProxyData]
    accepts and whatever version, and another client is made with a truthy
    version that converts to the text [s2], every request of the first
    client goes to the URL of version [s2], still with the first client's
    token. *)
Theorem last_version_wins (st : state) (tok1 tok2 : string)
    (pd1 pd2 v1 v2 : jsval) (rd1 rd2 : RequestData) (s1 s2 : string) (c : call) :
  wf st ->
  getProxyData {| token := tok1; proxy := None |} pd1 = Normal rd1 ->
  getProxyData {| token := tok2; proxy := None |} pd2 = Normal rd2 ->
  to_string v1 = Normal s1 ->
  truthy v2 = true -> to_string v2 = Normal s2 ->
  exists st1 st2 r,
    constructor tok1 pd1 v1 st = Normal ({| requestData := rd1 |}, st1)
    /\ constructor tok2 pd2 v2 st1 = Normal ({| requestData := rd2 |}, st2)
    /\ sent_wire (perform {| requestData := rd1 |} c st2) = Some r
    /\ wire_url r = (versioned_url s2 ++ endpoint c)%string
    /\ access_token (wire_qs r) = Some tok1.
Proof.
  intros Hwf Hrd1 Hrd2 Hs1 Hv2 Hs2.
  destruct (constructor_at tok1 pd1 v1 st rd1 s1 Hwf Hrd1 Hs1)
    as (st1 & H1 & Hwf1 & _ & _).
  destruct (constructor_at tok2 pd2 v2 st1 rd2 s2 Hwf1 Hrd2 Hs2)
    as (st2 & H2 & Hwf2 & _ & Hview).
  rewrite Hv2 in Hview.
  destruct (wf_lookup _ Hwf2) as (b & qb & Hb & Hqb).
  rewrite (view_at _ _ _ _ Hb Hqb) in Hview.
  destruct (view st1 requestOptions) as [w|]; [|discriminate].
  injection Hview as Hurl _.
  eexists _, _, _. split; [exact H1|]. split; [exact H2|]. split.
  { apply (perform_wire _ c st2 b qb Hb Hqb). }
  cbn [wire_of wire_url wire_qs]. rewrite url_built, Hurl. split; [reflexivity|].
  pose proof (getProxyData_token _ _ _ Hrd1) as Htok. cbn in Htok.
  destruct c; cbn; now rewrite Htok.
Qed.

(** The statement above from the initial state, for a first client behind
    a proxy, and the versions 2.11 and 3.2. *)
Lemma last_version_wins_witness :
  exists st1 st2 r,
    constructor "FIRST_TOKEN"
      (JObj [("hostname", JStr "proxy.local"); ("port", JNum "3128")])
      (JStr "2.11") initial
    = Normal ({| requestData := {| token := "FIRST_TOKEN";
                                   proxy := Some "http://proxy.local:3128" |} |}, st1)
    /\ constructor "SECOND_TOKEN" JUndefined (JStr "3.2") st1
       = Normal ({| requestData := {| token := "SECOND_TOKEN"; proxy := None |} |}, st2)
    /\ sent_wire (perform {| requestData := {| token := "FIRST_TOKEN";
                                               proxy := Some "http://proxy.local:3128" |} |}
                    (MarkSeen "42" JUndefined) st2) = Some r
    /\ wire_url r = "https://graph.facebook.com/v3.2/me/messages"
    /\ access_token (wire_qs r) = Some "FIRST_TOKEN".
Proof.
  exact (last_version_wins initial "FIRST_TOKEN" "SECOND_TOKEN"
           (JObj [("hostname", JStr "proxy.local"); ("port", JNum "3128")]) JUndefined
           (JStr "2.11") (JStr "3.2")
           {| token := "FIRST_TOKEN"; proxy := Some "http://proxy.local:3128" |}
           {| token := "SECOND_TOKEN"; proxy := None |} "2.11" "3.2"
           (MarkSeen "42" JUndefined) wf_initial eq_refl eq_refl eq_refl eq_refl eq_refl).
Defined.

(** X11: an option object handed out before a change of version keeps its
    URL: the change reaches the base options and the copies made after it
    only. *)
Theorem setAPIVersion_spares_copies (st : state) (version : string) :
  wf st ->
  exists r st1 st2 r' st3,
    getRequestOptions st = Normal (r, st1)
    /\ setAPIVersion version st1 = Normal (tt, st2)
    /\ getRequestOptions st2 = Normal (r', st3)
    /\ view st2 r = view st1 r
    /\ view st3 r = view st1 r
    /\ wire_url <$> view st1 r = wire_url <$> view st requestOptions
    /\ wire_url <$> view st3 r' = Some (versioned_url version).
Proof.
  intros Hwf.
  destruct (getRequestOptions_fresh st Hwf)
    as (r & st1 & Hrun1 & Hwf1 & Hnew1 & Hcopy1 & Hsep1).
  destruct (wf_lookup _ Hwf1) as (b & qb & Hb & Hqb).
  assert (Hr : is_Some (options_store st1 !! r)).
  { apply view_is_Some. rewrite Hcopy1.
    destruct (view_base_is_Some st Hwf) as [w ->]. eexists; reflexivity. }
  destruct Hr as [x Hx].
  destruct (Hsep1 requestOptions (wf_base _ Hwf)) as (Hne & _).
  set (st2 := written requestOptions (set_url (versioned_url version) b) (qs b) qb st1).
  assert (Hset : setAPIVersion version st1 = Normal (tt, st2)).
  { unfold setAPIVersion. rewrite (update_options_at _ _ _ _ Hb).
    now rewrite (written_options _ _ _ _ _ Hqb). }
  assert (Hwf2 : wf st2) by (eapply wf_written; eauto).
  assert (Hv2 : view st2 r = view st1 r).
  { eapply view_written; try eassumption; [congruence|].
    eapply (wf_private _ Hwf1); eauto. }
  destruct (getRequestOptions_fresh st2 Hwf2)
    as (r' & st3 & Hrun3 & Hwf3 & Hnew3 & Hcopy3 & Hsep3).
  assert (Hx2 : is_Some (options_store st2 !! r)).
  { apply view_is_Some. rewrite Hv2. unfold view. rewrite Hx. cbn.
    destruct (wf_lookup_qs _ _ _ Hwf1 Hx) as [q ->]. eexists; reflexivity. }
  destruct (Hsep3 r Hx2) as (_ & Hv3 & _).
  exists r, st1, st2, r', st3.
  split; [assumption|]. split; [assumption|]. split; [assumption|].
  split; [assumption|]. split; [congruence|]. split.
  - rewrite Hcopy1. now destruct (view st requestOptions).
  - rewrite Hcopy3. unfold st2.
    rewrite (view_written_same _ _ _ _ _ Hwf1 Hb) by reflexivity. reflexivity.
Qed.

(** The statement above from the initial state. *)
Lemma setAPIVersion_spares_copies_witness :
  exists r st1 st2 r' st3,
    getRequestOptions initial = Normal (r, st1)
    /\ setAPIVersion "2.11" st1 = Normal (tt, st2)
    /\ getRequestOptions st2 = Normal (r', st3)
    /\ view st3 r = view st1 r
    /\ wire_url <$> view st3 r' = Some "https://graph.facebook.com/v2.11/".
Proof.
  destruct (setAPIVersion_spares_copies initial "2.11" wf_initial)
    as (r & st1 & st2 & r' & st3 & H1 & H2 & H3 & _ & H5 & _ & H7).
  exists r, st1, st2, r', st3. repeat split; assumption.
Defined.

(** X12: [sendMessage] writes into the option object it is given, so an
    object used again carries over what an earlier call has put there: after
    a call with a proxy, a call without proxy on the same object sends the
    new token through the old proxy, and the object itself holds both. *)
Theorem sendMessage_reuse (st : state) (l : loc) (rd1 rd2 : RequestData)
    (cb1 cb2 : jsval) (p : string) :
  wf st -> is_Some (options_store st !! l) ->
  proxy rd1 = Some p -> proxy rd2 = None ->
  exists r1 st1 r2 st2 w,
    sendMessage l rd1 cb1 st = Normal (r1, st1)
    /\ sendMessage l rd2 cb2 st1 = Normal (r2, st2)
    /\ sent_wire (sendMessage l rd2 cb2 st1) = Some w
    /\ view st2 l = Some w
    /\ wire_proxy w = Some p
    /\ access_token (wire_qs w) = Some (token rd2).
Proof.
  intros Hwf [o Ho] Hp1 Hp2.
  destruct (wf_lookup_qs _ _ _ Hwf Ho) as [q Hq].
  pose proof (sendMessage_at l rd1 cb1 st o q Ho Hq) as H1.
  set (st1 := {| options_store := _ |}) in H1.
  assert (Ho1 : options_store st1 !! l = Some (with_proxy rd1 o)).
  { apply list_lookup_insert_eq. eapply lookup_lt_Some; eassumption. }
  assert (Hq1 : qs_store st1 !! qs (with_proxy rd1 o)
                = Some (set_access_token (Some (token rd1)) q)).
  { rewrite qs_with_proxy. apply list_lookup_insert_eq. eapply lookup_lt_Some; eassumption. }
  pose proof (sendMessage_at l rd2 cb2 st1 _ _ Ho1 Hq1) as H2.
  set (st2 := {| options_store := _ |}) in H2.
  eexists _, st1, _, st2, _. split; [exact H1|]. split; [exact H2|]. split.
  { rewrite H2. unfold sent_wire, issued_by.
    cbn [state_of mbind option_bind]. unfold st2. cbn [outbox].
    rewrite last_snoc. reflexivity. }
  split.
  { apply view_at.
    - apply list_lookup_insert_eq. eapply lookup_lt_Some; eassumption.
    - rewrite qs_with_proxy. apply list_lookup_insert_eq.
      eapply lookup_lt_Some; eassumption. }
  cbn [wire_of wire_proxy wire_qs access_token set_access_token].
  split; [|reflexivity].
  unfold with_proxy. rewrite Hp2, Hp1. reflexivity.
Qed.

(** The statement above on the copy held in [sample_state]. *)
Lemma sendMessage_reuse_witness :
  exists r1 st1 r2 st2 w,
    sendMessage 1 {| token := "FIRST_TOKEN"; proxy := Some "http://proxy.local:3128" |}
      JUndefined sample_state = Normal (r1, st1)
    /\ sendMessage 1 {| token := "SECOND_TOKEN"; proxy := None |} JUndefined st1
       = Normal (r2, st2)
    /\ view st2 1 = Some w
    /\ wire_proxy w = Some "http://proxy.local:3128"
    /\ access_token (wire_qs w) = Some "SECOND_TOKEN".
Proof.
  destruct (sendMessage_reuse sample_state 1
              {| token := "FIRST_TOKEN"; proxy := Some "http://proxy.local:3128" |}
              {| token := "SECOND_TOKEN"; proxy := None |}
              JUndefined JUndefined "http://proxy.local:3128"
              wf_sample_state (ex_intro _ _ eq_refl) eq_refl eq_refl)
    as (r1 & st1 & r2 & st2 & w & H1 & H2 & _ & H4 & H5 & H6).
  exists r1, st1, r2, st2, w. repeat split; assumption.
Defined.

(** X13: in promise mode, a body that is not yet an object and that
    [JSON.parse] reads as a value other than [null] rejects the promise with
    the [message] of the parsed value's [error] when that is truthy, and
    fulfils it with the parsed value otherwise. *)
Theorem promise_text_body (JSON_parse : jsval -> completion jsval)
    (n : nat) (err body parsed : jsval) :
  truthy err = false ->
  is_record body = false ->
  JSON_parse body = Normal parsed ->
  nullish parsed = false ->
  settled JSON_parse (NewPromise n) err body
  = if truthy (read parsed "error")
    then Rejected (read (read parsed "error") "message")
    else Fulfilled parsed.
Proof.
  intros Herr Hrec Hparse Hnn. unfold settled.
  assert (Hb : match body with JObj _ | JErr _ => False | _ => True end)
    by (destruct body; try exact I; discriminate).
  rewrite (promise_handler_text_body JSON_parse err body parsed Herr Hb Hparse).
  rewrite (get_prop_defined _ _ Hnn). cbn [bind].
  destruct (truthy (read parsed "error")) eqn:Ht; [|reflexivity].
  rewrite get_prop_defined; [reflexivity|].
  now destruct (read parsed "error").
Qed.

(** The statement above for a runtime whose [JSON.parse] reads the text as
    the platform's error report. *)
Lemma promise_text_body_witness :
  settled (fun _ => Normal oauth_error_body) (NewPromise 0) JNull (JStr "text")
  = Rejected (JStr "Invalid OAuth access token.").
Proof.
  exact (promise_text_body (fun _ => Normal oauth_error_body) 0 JNull (JStr "text")
           oauth_error_body eq_refl eq_refl eq_refl eq_refl).
Defined.

(** X14: in promise mode the promise is never settled when there is no
    transport error and the body is not an object and either does not parse
    or parses to [null]: the exception leaves the handler, and neither
    [resolve] nor [reject] is called. *)
Theorem promise_never_settles (JSON_parse : jsval -> completion jsval)
    (n : nat) (err body : jsval) :
  truthy err = false ->
  is_record body = false ->
  (exists e, JSON_parse body = Throw e) \/ JSON_parse body = Normal JNull ->
  settled JSON_parse (NewPromise n) err body = Pending.
Proof.
  intros Herr Hrec Hparse. unfold settled, promise_handler.
  rewrite Herr, object_test_spec.
  replace (match body with JObj _ | JErr _ => true | _ => false end) with false
    by (now destruct body).
  cbn [negb]. destruct Hparse as [[e ->]| ->]; reflexivity.
Qed.

(** The statement above for a runtime whose [JSON.parse] rejects the text. *)
Lemma promise_never_settles_witness :
  settled (fun _ => Throw SyntaxError) (NewPromise 0) JNull
    (JStr "<html>502 Bad Gateway</html>")
  = Pending.
Proof.
  apply (promise_never_settles (fun _ => Throw SyntaxError) 0 JNull
           (JStr "<html>502 Bad Gateway</html>")); [reflexivity | reflexivity |].
  left. exists SyntaxError. reflexivity.
Defined.



(** X16: [toggleTyping] with exactly two arguments.  A second argument
    with the class string of a function is the callback: typing is turned
    off, the function registered, and the promise returned is already
    resolved.  Any other second argument, which includes [async] and
    generator functions, decides by its truth value, and the call returns a
    new promise. *)
Theorem toggleTyping_two_arguments (st : state) (this : FacebookMessagingAPIClient)
    (id : string) (x : jsval) :
  wf st ->
  (class_of x = "[object Function]" ->
   sent_json (toggleTyping this id [x] st)
   = Some (JObj [("recipient", JObj [("id", JStr id)]);
                 ("sender_action", JStr "typing_off")])
   /\ sent_handler (toggleTyping this id [x] st) = Some (CallbackHandler x)
   /\ value_of (toggleTyping this id [x] st) = Some (PromiseResolve JUndefined))
  /\ (class_of x <> "[object Function]" ->
      sent_json (toggleTyping this id [x] st)
      = Some (JObj [("recipient", JObj [("id", JStr id)]);
                    ("sender_action",
                     JStr (if truthy x then "typing_on" else "typing_off"))])
      /\ sent_handler (toggleTyping this id [x] st) = Some PromiseHandler
      /\ value_of (toggleTyping this id [x] st)
         = Some (NewPromise (length (outbox st))))
  /\ (forall kind source,
        class_of (JFunOf kind source) <> "[object Function]"
        /\ truthy (JFunOf kind source) = true).
Proof.
  intros Hwf.
  destruct (perform_sends this (ToggleTyping id [x]) st Hwf) as (b & _ & Hv & Hj & Hh).
  cbn [perform] in Hv, Hj, Hh. rewrite Hv, Hj, Hh.
  cbn [body_of callback_of]. unfold toggle_of. cbn [length nth Nat.eqb].
  unfold is_plain_function.
  split; [|split].
  - intros Hc. apply String.eqb_eq in Hc as Hc'. rewrite Hc'.
    unfold handler_for, returned_for.
    rewrite (plain_function_is_function x Hc'). repeat split.
  - intros Hc. apply String.eqb_neq in Hc. rewrite Hc.
    unfold handler_for, returned_for. cbn.
    repeat split; try now destruct (truthy x).
  - intros [] source; split; (discriminate || reflexivity).
Qed.

(** The statement above from the initial state, for the toggle [false]. *)
Lemma toggleTyping_two_arguments_witness :
  sent_json (toggleTyping sample_client "42" [JBool false] initial)
  = Some (JObj [("recipient", JObj [("id", JStr "42")]);
                ("sender_action", JStr "typing_off")])
  /\ value_of (toggleTyping sample_client "42" [JBool false] initial)
     = Some (NewPromise 0).
Proof.
  destruct (proj1 (proj2 (toggleTyping_two_arguments initial sample_client "42"
                            (JBool false) wf_initial)))
    as (Hj & _ & Hv).
  - discriminate.
  - split; [exact Hj | exact Hv].
Defined.

(** X17: where [getProxyData] throws a TypeError instead of its own error:
    on a descriptor whose own [hasOwnProperty] is not a function; on a
    descriptor with both fields whose [hostname] is neither a string, nor an
    array, nor an object; and on one whose [hostname] is a string and whose
    [port] is an object that does not convert to a string. *)
Theorem getProxyData_type_errors (rd : RequestData) (props : list (string * jsval)) :
  (forall f,
      lookup_prop "hasOwnProperty" props = Some f -> is_function f = false ->
      getProxyData rd (JObj props) = Throw TypeError)
  /\ (forall h port,
        lookup_prop "hasOwnProperty" props = None ->
        lookup_prop "hostname" props = Some h ->
        lookup_prop "port" props = Some port ->
        (match h with JStr _ | JArr _ | JObj _ => False | _ => True end ->
         getProxyData rd (JObj props) = Throw TypeError)
        /\ (forall s, h = JStr s -> to_string port = Throw TypeError ->
            getProxyData rd (JObj props) = Throw TypeError)).
Proof.
  split.
  - intros f Hf Hno. exact (getProxyData_shadowed rd props f Hf Hno).
  - intros h port Hs Hh Hp.
    rewrite (getProxyData_accepted rd props h port Hs Hh Hp). split.
    + now destruct h.
    + intros s -> Hport. cbn [indexOf_is_zero to_string bind]. now rewrite Hport.
Qed.

(** The statement above for the descriptors
    [{hostname: 'proxy.local', port: 3128, hasOwnProperty: null}] and
    [{hostname: 'proxy.local', port: {toString: null}}]. *)
Lemma getProxyData_type_errors_witness :
  getProxyData {| token := "PAGE_TOKEN"; proxy := None |}
    (JObj [("hostname", JStr "proxy.local"); ("port", JNum "3128");
           ("hasOwnProperty", JNull)])
  = Throw TypeError
  /\ getProxyData {| token := "PAGE_TOKEN"; proxy := None |}
       (JObj [("hostname", JStr "proxy.local");
              ("port", JObj [("toString", JNull)])])
     = Throw TypeError.
Proof.
  split.
  - exact (proj1 (getProxyData_type_errors {| token := "PAGE_TOKEN"; proxy := None |}
                    [("hostname", JStr "proxy.local"); ("port", JNum "3128");
                     ("hasOwnProperty", JNull)])
             JNull eq_refl eq_refl).
  - exact (proj2 (proj2 (getProxyData_type_errors
                           {| token := "PAGE_TOKEN"; proxy := None |}
                           [("hostname", JStr "proxy.local");
                            ("port", JObj [("toString", JNull)])])
                    (JStr "proxy.local") (JObj [("toString", JNull)])
                    eq_refl eq_refl eq_refl)
             "proxy.local" eq_refl eq_refl).
Defined.
